(** * Cozy Bid: the sealed-bid commit-reveal auction server

    A shallow embedding of [src/server.js] and [src/db.js] (the Express
    handlers and the SQLite repository behind them), together with the part
    of the JavaScript runtime the handlers rely on: SHA-256 as computed by
    [crypto.createHash('sha256')], IEEE binary64 numbers with [parseFloat],
    [Number.prototype.toFixed] and [String(number)], string trimming and the
    one regular expression of the commit endpoint.

    Strings are sequences of bytes: a JavaScript string is represented by its
    UTF-8 encoding, which is what the hash consumes; where the source counts
    UTF-16 code units ([.length]) the model counts them from the bytes. *)

From Stdlib Require Import ZArith List String Ascii Bool Lia.
From Stdlib Require Import Floats.SpecFloat.
From stdpp Require Import gmap strings.

Local Open Scope string_scope.
Local Open Scope Z_scope.

(** ** SHA-256 (FIPS 180-4), the digest behind [computeHash] *)

Module Sha256.

Definition mask32 : Z := 0xffffffff.
Definition w32 (x : Z) : Z := Z.land x mask32.
Definition add32 (x y : Z) : Z := w32 (x + y).
Definition rotr (n x : Z) : Z :=
  Z.lor (Z.shiftr x n) (w32 (Z.shiftl x (32 - n))).
Definition xor3 (x y z : Z) : Z := Z.lxor (Z.lxor x y) z.

Definition ch (x y z : Z) : Z :=
  Z.lxor (Z.land x y) (Z.land (Z.lxor x mask32) z).
Definition maj (x y z : Z) : Z :=
  xor3 (Z.land x y) (Z.land x z) (Z.land y z).
Definition big_sigma0 (x : Z) : Z := xor3 (rotr 2 x) (rotr 13 x) (rotr 22 x).
Definition big_sigma1 (x : Z) : Z := xor3 (rotr 6 x) (rotr 11 x) (rotr 25 x).
Definition small_sigma0 (x : Z) : Z :=
  xor3 (rotr 7 x) (rotr 18 x) (Z.shiftr x 3).
Definition small_sigma1 (x : Z) : Z :=
  xor3 (rotr 17 x) (rotr 19 x) (Z.shiftr x 10).

(** The constants of FIPS 180-4 are read off the first 64 primes: the
    round constants are the first 32 bits of the fractional parts of their
    cube roots, the initial hash value those of the square roots of the
    first eight. *)
Definition is_prime (n : Z) : bool :=
  (1 <? n)
  && forallb (fun d => (n <? d * d) || negb (n mod d =? 0))
       (map Z.of_nat (seq 2 (Z.to_nat n - 2))).

Definition first_primes : list Z :=
  filter is_prime (map Z.of_nat (seq 2 310)).

(** Largest [x] in [lo, hi) with [x^3 <= n], by bisection. *)
Fixpoint cube_root (fuel : nat) (lo hi n : Z) : Z :=
  match fuel with
  | O => lo
  | S fuel' =>
      let mid := (lo + hi) / 2 in
      if mid =? lo then lo
      else if mid ^ 3 <=? n then cube_root fuel' mid hi n
      else cube_root fuel' lo mid n
  end.

Definition round_constants : list Z :=
  Eval vm_compute in
    map (fun p => w32 (cube_root 40 0 (2 ^ 36) (p * 2 ^ 96))) first_primes.

(** The eight working variables, also the chaining value between blocks. *)
Record regs := Regs {
  ra : Z; rb : Z; rc : Z; rd : Z; re : Z; rf : Z; rg : Z; rh : Z
}.

Definition fractional_sqrt (p : Z) : Z := w32 (Z.sqrt (p * 2 ^ 64)).

Definition initial_hash : regs :=
  Eval vm_compute in
    match map fractional_sqrt (firstn 8 first_primes) with
    | [a; b; c; d; e; f; g; h] => Regs a b c d e f g h
    | _ => Regs 0 0 0 0 0 0 0 0
    end.

Definition bytes_of_string (s : string) : list Z :=
  map (fun c => Z.of_N (N_of_ascii c)) (list_ascii_of_string s).

(** Big-endian bytes of the low [8 * n] bits of [x]. *)
Fixpoint be_bytes (n : nat) (x : Z) : list Z :=
  match n with
  | O => []
  | S n' => Z.land (Z.shiftr x (8 * Z.of_nat n')) 0xff :: be_bytes n' x
  end.

Definition pad (msg : list Z) : list Z :=
  let len := Z.of_nat (List.length msg) in
  (msg ++ 0x80 :: repeat 0 (Z.to_nat ((55 - len) mod 64))
       ++ be_bytes 8 (8 * len))%list.

Fixpoint chunks {X : Type} (size count : nat) (l : list X) : list (list X) :=
  match count with
  | O => []
  | S count' => firstn size l :: chunks size count' (skipn size l)
  end.

Definition be_word (bs : list Z) : Z :=
  fold_left (fun acc b => Z.lor (Z.shiftl acc 8) b) bs 0.

(** Message schedule, most recent word first. *)
Fixpoint extend_schedule (n : nat) (rev_w : list Z) : list Z :=
  match n with
  | O => rev_w
  | S n' =>
      let w := add32 (add32 (small_sigma1 (nth 1 rev_w 0)) (nth 6 rev_w 0))
                     (add32 (small_sigma0 (nth 14 rev_w 0)) (nth 15 rev_w 0)) in
      extend_schedule n' (w :: rev_w)
  end.

Definition schedule (block : list Z) : list Z :=
  rev (extend_schedule 48 (rev (map be_word (chunks 4 16 block)))).

Definition round (v : regs) (kw : Z * Z) : regs :=
  let t1 := add32 (add32 (add32 (rh v) (big_sigma1 (re v)))
                         (add32 (ch (re v) (rf v) (rg v)) (fst kw))) (snd kw) in
  let t2 := add32 (big_sigma0 (ra v)) (maj (ra v) (rb v) (rc v)) in
  Regs (add32 t1 t2) (ra v) (rb v) (rc v) (add32 (rd v) t1) (re v) (rf v) (rg v).

Definition compress (hv : regs) (block : list Z) : regs :=
  let v := fold_left round (combine round_constants (schedule block)) hv in
  Regs (add32 (ra hv) (ra v)) (add32 (rb hv) (rb v))
       (add32 (rc hv) (rc v)) (add32 (rd hv) (rd v))
       (add32 (re hv) (re v)) (add32 (rf hv) (rf v))
       (add32 (rg hv) (rg v)) (add32 (rh hv) (rh v)).

Definition digest (msg : list Z) : regs :=
  let padded := pad msg in
  fold_left compress (chunks 64 (List.length padded / 64) padded) initial_hash.

Definition hex_digit (n : Z) : ascii :=
  match n with
  | 0 => "0" | 1 => "1" | 2 => "2" | 3 => "3" | 4 => "4" | 5 => "5"
  | 6 => "6" | 7 => "7" | 8 => "8" | 9 => "9" | 10 => "a" | 11 => "b"
  | 12 => "c" | 13 => "d" | 14 => "e" | _ => "f"
  end%char.

Definition nibble (i x : Z) : ascii := hex_digit (Z.land (Z.shiftr x (4 * i)) 15).

Definition hex_word (x : Z) (rest : string) : string :=
  String (nibble 7 x) (String (nibble 6 x) (String (nibble 5 x)
  (String (nibble 4 x) (String (nibble 3 x) (String (nibble 2 x)
  (String (nibble 1 x) (String (nibble 0 x) rest))))))).

Definition hex_of_regs (v : regs) : string :=
  hex_word (ra v) (hex_word (rb v) (hex_word (rc v) (hex_word (rd v)
  (hex_word (re v) (hex_word (rf v) (hex_word (rg v) (hex_word (rh v) ""))))))).

(** [createHash('sha256').update(payload).digest('hex')] *)
Definition sha256_hex (payload : string) : string :=
  hex_of_regs (digest (bytes_of_string payload)).

End Sha256.

(** ** The JavaScript runtime the handlers use *)

Module Js.

(** *** Characters and strings *)

Definition code (c : ascii) : Z := Z.of_N (N_of_ascii c).

Definition digit_of (c : ascii) : option Z :=
  let n := code c in
  if (48 <=? n) && (n <=? 57) then Some (n - 48) else None.

Definition digit_char (d : Z) : ascii := ascii_of_N (Z.to_N (48 + d)).

(** The value of a decimal digit. *)
Definition is_digit (d : Z) : Prop := 0 <= d <= 9.

(** UTF-16 code units contributed by one byte of a UTF-8 string:
    continuation bytes add nothing, the lead byte of a four-byte sequence
    stands for a surrogate pair. *)
Definition utf16_units (c : ascii) : Z :=
  let n := code c in
  if n <? 0x80 then 1 else if n <? 0xc0 then 0 else if n <? 0xf0 then 1 else 2.

(** [s.length] *)
Fixpoint js_length (s : string) : Z :=
  match s with
  | EmptyString => 0
  | String c r => utf16_units c + js_length r
  end.

(** [s.split(sep)] for a one-character separator. *)
Fixpoint split (sep : ascii) (s : string) : list string :=
  match s with
  | EmptyString => [EmptyString]
  | String c r =>
      if Ascii.eqb c sep then EmptyString :: split sep r
      else match split sep r with
           | h :: t => String c h :: t
           | [] => [String c EmptyString]
           end
  end.

(** White space and line terminators of ECMAScript, as UTF-8:
    U+0009..U+000D, U+0020 | U+00A0 | U+1680, U+2000..U+200A, U+2028,
    U+2029, U+202F, U+205F, U+3000, U+FEFF. *)
Definition ws1 (a : Z) : bool := ((9 <=? a) && (a <=? 13)) || (a =? 32).
Definition ws2 (a b : Z) : bool := (a =? 0xc2) && (b =? 0xa0).
Definition ws3 (a b c : Z) : bool :=
  ((a =? 0xe1) && (b =? 0x9a) && (c =? 0x80))
  || ((a =? 0xe2) && (b =? 0x80)
      && (((0x80 <=? c) && (c <=? 0x8a)) || (c =? 0xa8) || (c =? 0xa9)
          || (c =? 0xaf)))
  || ((a =? 0xe2) && (b =? 0x81) && (c =? 0x9f))
  || ((a =? 0xe3) && (b =? 0x80) && (c =? 0x80))
  || ((a =? 0xef) && (b =? 0xbb) && (c =? 0xbf)).

(** [s.trimStart()] *)
Fixpoint trim_start (s : string) : string :=
  match s with
  | EmptyString => s
  | String c1 r1 =>
      if ws1 (code c1) then trim_start r1
      else match r1 with
           | EmptyString => s
           | String c2 r2 =>
               if ws2 (code c1) (code c2) then trim_start r2
               else match r2 with
                    | EmptyString => s
                    | String c3 r3 =>
                        if ws3 (code c1) (code c2) (code c3)
                        then trim_start r3 else s
                    end
           end
  end.

Definition is_empty (s : string) : bool :=
  match s with EmptyString => true | _ => false end.

Fixpoint trim_end (s : string) : string :=
  match s with
  | EmptyString => EmptyString
  | String c r =>
      if is_empty (trim_start s) then EmptyString else String c (trim_end r)
  end.

(** [s.trim()] *)
Definition trim (s : string) : string := trim_end (trim_start s).

(** *** Numbers: IEEE 754 binary64

    A number is a [spec_float]; a finite [S754_finite s m e] stands for
    [(-1)^s * m * 2^e]. Every function below reads a finite number by its
    value, so it does not depend on which representation is given. *)

Definition number := spec_float.

Definition is_nan (x : number) : bool :=
  match x with S754_nan => true | _ => false end.

(** Signed mantissa and exponent of a finite number or zero. *)
Definition signed_mantissa (x : number) : Z :=
  match x with
  | S754_finite s m _ => if s then Zneg m else Zpos m
  | _ => 0
  end.

Definition exponent (x : number) : Z :=
  match x with S754_finite _ _ e => e | _ => 0 end.

Definition compare (x y : number) : option comparison :=
  match x, y with
  | S754_nan, _ | _, S754_nan => None
  | S754_infinity s1, S754_infinity s2 =>
      Some (if s1 then if s2 then Eq else Lt else if s2 then Gt else Eq)
  | S754_infinity s, _ => Some (if s then Lt else Gt)
  | _, S754_infinity s => Some (if s then Gt else Lt)
  | _, _ =>
      let e := Z.min (exponent x) (exponent y) in
      Some (Z.compare (signed_mantissa x * 2 ^ (exponent x - e))
                      (signed_mantissa y * 2 ^ (exponent y - e)))
  end.

(** [x < y], [x > y], [x <= y] *)
Definition lt (x y : number) : bool :=
  match compare x y with Some Lt => true | _ => false end.
Definition gt (x y : number) : bool := lt y x.
Definition le (x y : number) : bool :=
  match compare x y with Some Lt | Some Eq => true | _ => false end.
(** numeric equality, [x == y] on numbers *)
Definition num_eq (x y : number) : bool :=
  match compare x y with Some Eq => true | _ => false end.

(** Quotient [num / den] rounded to the nearest integer, ties to even. *)
Definition nearest_even (num den : Z) : Z :=
  let qt := num / den in
  let r := num mod den in
  if 2 * r <? den then qt
  else if den <? 2 * r then qt + 1
  else if Z.even qt then qt else qt + 1.

Definition scaled_num (p e : Z) : Z := if e <? 0 then p * 2 ^ (- e) else p.
Definition scaled_den (q e : Z) : Z := if e <? 0 then q else q * 2 ^ e.

(** The binary64 nearest to the positive rational [p / q] (round to
    nearest, ties to even), with sign [neg]: the exponent is settled
    first, then the 53-bit mantissa is rounded; too large is infinity, too
    small is zero. *)
Definition round_ratio (neg : bool) (p q : Z) : number :=
  let lg := Z.log2 p - Z.log2 q in
  let e1 := Z.max (lg - 52) (-1074) in
  let e := if (-1074 <? e1)
              && (scaled_num p e1 / scaled_den q e1 <? 2 ^ 52)
           then e1 - 1 else e1 in
  let m := nearest_even (scaled_num p e) (scaled_den q e) in
  let '(m, e) := if m =? 2 ^ 53 then (2 ^ 52, e + 1) else (m, e) in
  match m with
  | Zpos mp => if 971 <? e then S754_infinity neg else S754_finite neg mp e
  | _ => S754_zero neg
  end.

(** The number denoted by the decimal [d * 10^x], [d >= 0]. *)
Definition of_decimal (neg : bool) (d x : Z) : number :=
  if d =? 0 then S754_zero neg
  else if x <? 0 then round_ratio neg d (10 ^ (- x))
  else round_ratio neg (d * 10 ^ x) 1.

Definition of_int (z : Z) : number := of_decimal (z <? 0) (Z.abs z) 0.

Definition zero : number := S754_zero false.

(** *** parseFloat *)

Fixpoint span_digits (s : string) : list Z * string :=
  match s with
  | EmptyString => ([], s)
  | String c r =>
      match digit_of c with
      | Some d => let '(ds, rest) := span_digits r in (d :: ds, rest)
      | None => ([], s)
      end
  end.

Definition horner (ds : list Z) : Z :=
  fold_left (fun acc d => 10 * acc + d) ds 0.

Definition strip_sign (s : string) : bool * string :=
  match s with
  | String c r =>
      if Ascii.eqb c "-" then (true, r)
      else if Ascii.eqb c "+" then (false, r)
      else (false, s)
  | EmptyString => (false, s)
  end.

(** Value of an exponent part [e[+-]digits] at the head of [s]; 0 when
    there is none. *)
Definition scan_exponent (s : string) : Z :=
  match s with
  | String c r =>
      if Ascii.eqb c "e" || Ascii.eqb c "E" then
        let '(neg, r1) := strip_sign r in
        match fst (span_digits r1) with
        | [] => 0
        | ds => if neg then - horner ds else horner ds
        end
      else 0
  | EmptyString => 0
  end.

(** [parseFloat(s)] for a string: leading white space is skipped, the
    longest prefix that is a decimal literal is read, the rest is ignored. *)
Definition parse_float (input : string) : number :=
  let '(neg, s) := strip_sign (trim_start input) in
  if String.prefix "Infinity" s then S754_infinity neg
  else
    let '(ip, r1) := span_digits s in
    let '(fp, r2) := match r1 with
                     | String "." r => span_digits r
                     | _ => ([], r1)
                     end in
    match (ip ++ fp)%list with
    | [] => S754_nan
    | ds => of_decimal neg (horner ds)
              (scan_exponent r2 - Z.of_nat (List.length fp))
    end.

(** *** Number to string *)

Fixpoint dec_digits (fuel : nat) (n : Z) (acc : string) : string :=
  match fuel with
  | O => acc
  | S fuel' =>
      let acc' := String (digit_char (n mod 10)) acc in
      if n <? 10 then acc' else dec_digits fuel' (n / 10) acc'
  end.

(** Decimal digits of [n >= 0], no leading zero. *)
Definition dec_string (n : Z) : string :=
  dec_digits (S (Z.to_nat (Z.log2 n))) n EmptyString.

Fixpoint zeros (n : nat) : string :=
  match n with O => EmptyString | S n' => String "0" (zeros n') end.

Definition float_eqb (x y : number) : bool :=
  match x, y with
  | S754_zero s1, S754_zero s2 => Bool.eqb s1 s2
  | S754_infinity s1, S754_infinity s2 => Bool.eqb s1 s2
  | S754_nan, S754_nan => true
  | S754_finite s1 m1 e1, S754_finite s2 m2 e2 =>
      Bool.eqb s1 s2 && Pos.eqb m1 m2 && Z.eqb e1 e2
  | _, _ => false
  end.

(** [p / q < 10^n] *)
Definition below_pow10 (p q n : Z) : bool :=
  if n <? 0 then p * 10 ^ (- n) <? q else p <? q * 10 ^ n.

(** An exponent [n] with [10^n <= p / q], a few units below the largest:
    [p / q > 2^(lg - 1)] and [3 / 10 < log10 2 < 3 / 10 + 2 / 1075]. *)
Definition pow10_below (p q : Z) : Z :=
  (3 * (Z.log2 p - Z.log2 q - 1)) / 10 - 2.

(** Least [n >= from] with [p / q < 10^n]. *)
Fixpoint magnitude (fuel : nat) (p q from : Z) : Z :=
  match fuel with
  | O => from
  | S fuel' =>
      if below_pow10 p q from then from else magnitude fuel' p q (from + 1)
  end.

(** The shortest digit string [s] (of [k] digits) with [s * 10^(n-k)]
    rounding to [x = p / q], the closest to [x] among those of that
    length, the even one on a tie; the result is [(s, n)]. *)
Fixpoint shortest (fuel : nat) (x : number) (p q n k : Z) : Z * Z :=
  let t := k - n in
  let num := if t <? 0 then p else p * 10 ^ t in
  let den := if t <? 0 then q * 10 ^ (- t) else q in
  let lo := num / den in
  let hi := lo + 1 in
  let ok s := float_eqb (of_decimal false s (n - k)) x in
  let pick s := if s =? 10 ^ k then (1, n + 1) else (s, n) in
  match fuel with
  | O => pick lo
  | S fuel' =>
      match ok lo, ok hi with
      | true, true =>
          if 2 * num <? (2 * lo + 1) * den then pick lo
          else if (2 * lo + 1) * den <? 2 * num then pick hi
          else if Z.even lo then pick lo else pick hi
      | true, false => pick lo
      | false, true => pick hi
      | false, false => shortest fuel' x p q n (k + 1)
      end
  end.

Definition sub_string (from len : Z) (s : string) : string :=
  String.substring (Z.to_nat from) (Z.to_nat len) s.

(** Layout of the digits [ds] with the decimal point after the [n]-th. *)
Definition layout (ds : string) (n : Z) : string :=
  let k := Z.of_nat (String.length ds) in
  if (k <=? n) && (n <=? 21) then ds +:+ zeros (Z.to_nat (n - k))
  else if (0 <? n) && (n <=? 21)
  then sub_string 0 n ds +:+ "." +:+ sub_string n (k - n) ds
  else if (-6 <? n) && (n <=? 0) then "0." +:+ zeros (Z.to_nat (- n)) +:+ ds
  else
    let ex := (if n - 1 <? 0 then "-" else "+") +:+ dec_string (Z.abs (n - 1)) in
    if k =? 1 then ds +:+ "e" +:+ ex
    else sub_string 0 1 ds +:+ "." +:+ sub_string 1 (k - 1) ds +:+ "e" +:+ ex.

(** [String(x)] for a number *)
Definition number_to_string (x : number) : string :=
  match x with
  | S754_nan => "NaN"
  | S754_zero _ => "0"
  | S754_infinity s => if s then "-Infinity" else "Infinity"
  | S754_finite s m e =>
      let p := scaled_num (Zpos m) (- e) in
      let q := scaled_den 1 (- e) in
      let '(d, n) := shortest 17 (round_ratio false p q) p q
                       (magnitude 16 p q (pow10_below p q)) 1 in
      (if s then "-" else "") +:+ layout (dec_string d) n
  end.

(** *** toFixed(2) *)

(** [m * 2^e >= 10^21] *)
Definition at_least_1e21 (m e : Z) : bool :=
  if e <? 0 then 10 ^ 21 * 2 ^ (- e) <=? m else 10 ^ 21 <=? m * 2 ^ e.

(** The integer [n] with [n / 100] nearest to [m * 2^e], the larger one
    on a tie. *)
Definition hundredths (m e : Z) : Z :=
  if e <? 0 then (200 * m + 2 ^ (- e)) / 2 ^ (1 - e) else 100 * m * 2 ^ e.

Definition fixed2 (n : Z) : string :=
  dec_string (n / 100) +:+ "."
  +:+ String (digit_char ((n / 10) mod 10)) (String (digit_char (n mod 10)) "").

(** [x.toFixed(2)] *)
Definition to_fixed2 (x : number) : string :=
  match x with
  | S754_zero _ => "0.00"
  | S754_finite s m e =>
      if at_least_1e21 (Zpos m) e then number_to_string x
      else (if s then "-" else "") +:+ fixed2 (hundredths (Zpos m) e)
  | _ => number_to_string x
  end.

End Js.

(** ** The repository: [src/db.js]

    The [auctions] table is a finite map from the primary key [id] to the
    other columns of the row; a nullable column is an [option]. The two
    versions of the module in the repository (on better-sqlite3, and on
    sql.js with [initDb] and [saveDb]) run the same statements; every call
    is synchronous, so a handler reads and writes the table without
    another request in between. *)

Module Db.

Inductive seat : Set := A | B.

Definition seat_label (s : seat) : string :=
  match s with A => "A" | B => "B" end.

Definition other (s : seat) : seat :=
  match s with A => B | B => A end.

Record auction := Auction {
  title : string;
  description : option string;
  item_url : option string;
  seat_a_token : string;
  seat_b_token : string;
  commit_a : option string;
  commit_b : option string;
  bid_a : option Js.number;
  bid_b : option Js.number;
  secret_a : option string;
  secret_b : option string;
  created_at : Z
}.

Abbreviation store := (gmap string auction).

Definition commit_of (s : seat) (a : auction) : option string :=
  match s with A => commit_a a | B => commit_b a end.
Definition bid_of (s : seat) (a : auction) : option Js.number :=
  match s with A => bid_a a | B => bid_b a end.
Definition secret_of (s : seat) (a : auction) : option string :=
  match s with A => secret_a a | B => secret_b a end.

(** [UPDATE auctions SET commit_x = c] on one row *)
Definition with_commit (s : seat) (c : option string) (a : auction) : auction :=
  match s with
  | A => Auction (title a) (description a) (item_url a) (seat_a_token a)
           (seat_b_token a) c (commit_b a) (bid_a a) (bid_b a)
           (secret_a a) (secret_b a) (created_at a)
  | B => Auction (title a) (description a) (item_url a) (seat_a_token a)
           (seat_b_token a) (commit_a a) c (bid_a a) (bid_b a)
           (secret_a a) (secret_b a) (created_at a)
  end.

(** [UPDATE auctions SET bid_x = bid, secret_x = secret] on one row *)
Definition with_reveal (s : seat) (bid : Js.number) (secret : string)
    (a : auction) : auction :=
  match s with
  | A => Auction (title a) (description a) (item_url a) (seat_a_token a)
           (seat_b_token a) (commit_a a) (commit_b a) (Some bid) (bid_b a)
           (Some secret) (secret_b a) (created_at a)
  | B => Auction (title a) (description a) (item_url a) (seat_a_token a)
           (seat_b_token a) (commit_a a) (commit_b a) (bid_a a) (Some bid)
           (secret_a a) (Some secret) (created_at a)
  end.

(** [value || null] for an optional string *)
Definition or_null (o : option string) : option string :=
  match o with
  | Some (String c r) => Some (String c r)
  | _ => None
  end.

(** Some row already holds this value in a [UNIQUE] column. *)
Definition taken (column : auction -> string) (v : string) (st : store) : bool :=
  existsb (fun row => String.eqb (column (snd row)) v) (map_to_list st).

(** [createAuction]: the three random draws of [generateAuctionId] and
    [generateToken] and the clock behind [created_at] are inputs. [None] is
    the exception [INSERT] raises on the primary key or on a [UNIQUE]
    column. *)
Definition createAuction (id seatAToken seatBToken : string) (now : Z)
    (title : string) (description itemUrl : option string) (st : store)
  : option (string * string * string * store) :=
  match st !! id with
  | Some _ => None
  | None =>
      if taken seat_a_token seatAToken st || taken seat_b_token seatBToken st
      then None
      else Some (id, seatAToken, seatBToken,
                 <[id := Auction title (or_null description) (or_null itemUrl)
                           seatAToken seatBToken None None None None None None
                           now]> st)
  end.

Definition getAuctionBySeatToken (st : store) (auctionId seatToken : string)
  : option (auction * seat) :=
  match st !! auctionId with
  | Some row =>
      if String.eqb (seat_a_token row) seatToken
         || String.eqb (seat_b_token row) seatToken
      then Some (row, if String.eqb (seat_a_token row) seatToken then A else B)
      else None
  | None => None
  end.

Definition getAuctionById (st : store) (auctionId : string) : option auction :=
  st !! auctionId.

Definition setCommit (auctionId : string) (s : seat) (commit : string)
    (st : store) : store :=
  alter (with_commit s (Some commit)) auctionId st.

Definition setReveal (auctionId : string) (s : seat) (bid : Js.number)
    (secret : string) (st : store) : store :=
  alter (with_reveal s bid secret) auctionId st.

Definition resetCommit (auctionId : string) (s : seat) (st : store) : store :=
  alter (with_commit s None) auctionId st.

End Db.

(** ** The protocol engine: [src/server.js]

    Each handler takes the store and the fields of the request and returns
    the response with the store it leaves. The rate limiters and the
    database-ready middleware sit in front of the handlers and are not part
    of them. The fields [seatToken], [commit] and [secret] of a request
    are strings when they are present ([None] is a missing field); [bid],
    [title], [description] and [itemUrl], whose type the handlers look at,
    are arbitrary JSON values. *)

Module Server.
Import Db.

(** A value of a JSON request body, as far as [typeof] and [===] tell
    them apart; [JObject] stands for every object and array. *)
Inductive jsval :=
  | JUndefined
  | JNull
  | JBool (b : bool)
  | JNumber (x : Js.number)
  | JString (s : string)
  | JObject.

(** The error kinds; each is sent as a status code with a message. *)
Inductive failure :=
  | ValidationError (msg : string)
  | NotFound (msg : string)
  | AlreadyCommitted
  | Conflict
  | PreconditionFailed
  | AlreadyRevealed
  | HashMismatch
  | Internal.

Definition http_status (f : failure) : Z :=
  match f with
  | NotFound _ => 404
  | Internal => 500
  | _ => 400
  end.

Definition error_message (f : failure) : string :=
  match f with
  | ValidationError msg | NotFound msg => msg
  | AlreadyCommitted => "Commit already submitted"
  | Conflict => "Cannot reset: other party has already committed"
  | PreconditionFailed => "Both parties must commit before reveal"
  | AlreadyRevealed => "Already revealed"
  | HashMismatch => "Hash mismatch: bid or secret does not match commit"
  | Internal => "Failed to create auction"
  end.

Inductive response (X : Type) :=
  | Success (payload : X)
  | Failure (f : failure).
Arguments Success {X} payload.
Arguments Failure {X} f.

(** Truthiness of an optional string: [undefined], [null] and the empty
    string are falsy. *)
Definition truthy (o : option string) : bool :=
  match o with Some (String _ _) => true | _ => false end.

Definition computeHash (payload : string) : string := Sha256.sha256_hex payload.

(** [String(bid)] and [parseFloat(bid)] on the values [validateBid] lets
    through its first test. *)
Definition to_string (v : jsval) : string :=
  match v with
  | JNumber x => Js.number_to_string x
  | JString s => s
  | JUndefined => "undefined"
  | JNull => "null"
  | JBool b => if b then "true" else "false"
  | JObject => "[object Object]"
  end.

Definition parseFloat (v : jsval) : Js.number := Js.parse_float (to_string v).

Definition validateBid (bid : jsval) : bool :=
  match bid with
  | JNumber _ | JString _ =>
      let num := parseFloat bid in
      if Js.is_nan num || Js.le num Js.zero || Js.gt num (Js.of_int 100000)
      then false
      else
        match Js.split "." (to_string bid) with
        | _ :: part1 :: _ => if 2 <? Js.js_length part1 then false else true
        | _ => true
        end
  | _ => false
  end.

Definition lower_hex (c : ascii) : bool :=
  let n := Js.code c in
  ((48 <=? n) && (n <=? 57)) || ((97 <=? n) && (n <=? 102)).

Fixpoint all_chars (f : ascii -> bool) (s : string) : bool :=
  match s with
  | EmptyString => true
  | String c r => f c && all_chars f r
  end.

(** [/^[a-f0-9]{64}$/.test(commit)] *)
Definition commit_format (commit : string) : bool :=
  (Z.of_nat (String.length commit) =? 64) && all_chars lower_hex commit.

(** *** POST /api/auction *)

Record links := Links {
  auctionId : string;
  seatALink : string;
  seatBLink : string
}.

(** [v?.trim()]: [None] is [undefined]; the outer [None] is the
    [TypeError] of calling [.trim] on a value that has none. *)
Definition optional_trim (v : jsval) : option (option string) :=
  match v with
  | JUndefined | JNull => Some None
  | JString s => Some (Some (Js.trim s))
  | _ => None
  end.

Definition post_auction (st : store) (baseUrl : string)
    (id seatAToken seatBToken : string) (now : Z)
    (title description itemUrl : jsval) : response links * store :=
  match title with
  | JString t =>
      if Js.is_empty t || (Js.js_length (Js.trim t) =? 0)
      then (Failure (ValidationError "Title is required"), st)
      else if 200 <? Js.js_length t
      then (Failure (ValidationError "Title too long (max 200 chars)"), st)
      else
        match optional_trim description, optional_trim itemUrl with
        | Some d, Some u =>
            match createAuction id seatAToken seatBToken now (Js.trim t) d u st with
            | Some (id', a, b, st') =>
                (Success (Links id'
                            (baseUrl +:+ "/a/" +:+ id' +:+ "/" +:+ a)
                            (baseUrl +:+ "/a/" +:+ id' +:+ "/" +:+ b)), st')
            | None => (Failure Internal, st)
            end
        | _, _ => (Failure Internal, st)
        end
  | _ => (Failure (ValidationError "Title is required"), st)
  end.

(** *** GET /api/auction/:auctionId/status *)

Record status := Status {
  phase : string;
  hasCommitA : bool;
  hasCommitB : bool;
  hasRevealA : bool;
  hasRevealB : bool;
  status_title : string;
  status_description : option string;
  status_itemUrl : option string;
  mySeat : option seat;
  status_revealed : option bool
}.

Definition not_null {X : Type} (o : option X) : bool :=
  match o with Some _ => true | None => false end.

Definition get_status (st : store) (auctionId : string)
    (seatToken : option string) : response status :=
  match getAuctionById st auctionId with
  | None => Failure (NotFound "Auction not found")
  | Some auction =>
      let hasCommitA := truthy (commit_a auction) in
      let hasCommitB := truthy (commit_b auction) in
      let hasRevealA := not_null (bid_a auction) in
      let hasRevealB := not_null (bid_b auction) in
      let phase :=
        if hasRevealA && hasRevealB then "revealed"
        else if hasCommitA && hasCommitB then "reveal"
        else "commit" in
      let mySeat :=
        match seatToken with
        | Some (String c r) =>
            if String.eqb (seat_a_token auction) (String c r) then Some A
            else if String.eqb (seat_b_token auction) (String c r) then Some B
            else None
        | _ => None
        end in
      Success (Status phase hasCommitA hasCommitB hasRevealA hasRevealB
                 (title auction) (description auction) (item_url auction)
                 mySeat
                 (if hasRevealA && hasRevealB then Some true else None))
  end.

(** *** POST /api/auction/:auctionId/commit *)

Definition post_commit (st : store) (auctionId : string)
    (seatToken commit : option string) : response unit * store :=
  if negb (truthy seatToken) || negb (truthy commit)
  then (Failure (ValidationError "seatToken and commit are required"), st)
  else
    let token := default "" seatToken in
    let digest := default "" commit in
    if negb (commit_format digest)
    then (Failure (ValidationError "Invalid commit format"), st)
    else
      match getAuctionBySeatToken st auctionId token with
      | None => (Failure (NotFound "Auction not found or invalid token"), st)
      | Some (auction, seat) =>
          let existingCommit :=
            match seat with A => commit_a auction | B => commit_b auction end in
          if truthy existingCommit then (Failure AlreadyCommitted, st)
          else (Success tt, setCommit auctionId seat digest st)
      end.

(** *** POST /api/auction/:auctionId/reset-commit *)

Definition post_reset_commit (st : store) (auctionId : string)
    (seatToken : option string) : response unit * store :=
  if negb (truthy seatToken)
  then (Failure (ValidationError "seatToken is required"), st)
  else
    match getAuctionBySeatToken st auctionId (default "" seatToken) with
    | None => (Failure (NotFound "Auction not found or invalid token"), st)
    | Some (auction, seat) =>
        let otherCommit :=
          match seat with A => commit_b auction | B => commit_a auction end in
        if truthy otherCommit then (Failure Conflict, st)
        else (Success tt, resetCommit auctionId seat st)
    end.

(** *** POST /api/auction/:auctionId/reveal *)

Definition is_undefined (v : jsval) : bool :=
  match v with JUndefined => true | _ => false end.

(** The payload the reveal handler hashes:
    [`${bidStr}|${secret}|${auctionId}|${seat}`]. *)
Definition reveal_payload (bidStr secret auctionId : string) (s : seat) : string :=
  bidStr +:+ "|" +:+ secret +:+ "|" +:+ auctionId +:+ "|" +:+ seat_label s.

Definition post_reveal (st : store) (auctionId : string)
    (seatToken : option string) (bid : jsval) (secret : option string)
  : response unit * store :=
  if negb (truthy seatToken) || is_undefined bid || negb (truthy secret)
  then (Failure (ValidationError "seatToken, bid, and secret are required"), st)
  else if negb (validateBid bid)
  then (Failure (ValidationError
                   "Invalid bid: must be > 0, <= 100000, max 2 decimals"), st)
  else
    let sec := default "" secret in
    match getAuctionBySeatToken st auctionId (default "" seatToken) with
    | None => (Failure (NotFound "Auction not found or invalid token"), st)
    | Some (auction, seat) =>
        if negb (truthy (commit_a auction)) || negb (truthy (commit_b auction))
        then (Failure PreconditionFailed, st)
        else
          let existingBid :=
            match seat with A => bid_a auction | B => bid_b auction end in
          if not_null existingBid then (Failure AlreadyRevealed, st)
          else
            let bidStr := Js.to_fixed2 (parseFloat bid) in
            let payload := reveal_payload bidStr sec auctionId seat in
            let computedHash := computeHash payload in
            let storedCommit :=
              match seat with A => commit_a auction | B => commit_b auction end in
            if negb (bool_decide (Some computedHash = storedCommit))
            then (Failure HashMismatch, st)
            else (Success tt,
                  setReveal auctionId seat (Js.parse_float bidStr) sec st)
    end.

(** *** GET /api/auction/:auctionId/result *)

Record result := Result {
  result_title : string;
  result_description : option string;
  result_itemUrl : option string;
  bidA : string;
  bidB : string;
  winner : string;
  paymentAmount : option string
}.

Inductive outcome :=
  | NotRevealed
  | Revealed (r : result).

Definition get_result (st : store) (auctionId : string) : response outcome :=
  match getAuctionById st auctionId with
  | None => Failure (NotFound "Auction not found")
  | Some auction =>
      match bid_a auction, bid_b auction with
      | Some bidA, Some bidB =>
          let '(winner, winnerBid) :=
            if Js.gt bidA bidB then ("A", bidA)
            else if Js.gt bidB bidA then ("B", bidB)
            else ("TIE", bidA) in
          Success (Revealed
            (Result (title auction) (description auction) (item_url auction)
               (Js.to_fixed2 bidA) (Js.to_fixed2 bidB) winner
               (if negb (String.eqb winner "TIE")
                then Some (Js.to_fixed2 winnerBid) else None)))
      | _, _ => Success NotRevealed
      end
  end.

(** *** The protocol as a state machine over the store *)

Inductive request :=
  | Create (baseUrl id seatAToken seatBToken : string) (now : Z)
           (title description itemUrl : jsval)
  | Commit (auctionId : string) (seatToken commit : option string)
  | ResetCommit (auctionId : string) (seatToken : option string)
  | Reveal (auctionId : string) (seatToken : option string) (bid : jsval)
           (secret : option string)
  | GetStatus (auctionId : string) (seatToken : option string)
  | GetResult (auctionId : string).

Definition step (st : store) (r : request) : store :=
  match r with
  | Create base id a b now t d u => snd (post_auction st base id a b now t d u)
  | Commit id tok c => snd (post_commit st id tok c)
  | ResetCommit id tok => snd (post_reset_commit st id tok)
  | Reveal id tok bid sec => snd (post_reveal st id tok bid sec)
  | GetStatus _ _ | GetResult _ => st
  end.

Definition run (st : store) (rs : list request) : store := fold_left step rs st.

(** The stores the six operations can produce from the empty table. *)
Definition reachable (st : store) : Prop := exists rs, st = run ∅ rs.

(** *** The protocol as a transition relation, and its invariant *)

(** What one request can do to a row. *)
Inductive row_change (id : string) (a : auction) : auction -> Prop :=
  | change_commit s c :
      truthy (commit_of s a) = false -> commit_format c = true ->
      row_change id a (with_commit s (Some c) a)
  | change_reset s :
      truthy (commit_of (other s) a) = false ->
      row_change id a (with_commit s None a)
  | change_reveal s bid sec :
      validateBid bid = true ->
      truthy (commit_a a) = true -> truthy (commit_b a) = true ->
      bid_of s a = None ->
      commit_of s a
      = Some (computeHash
                (reveal_payload (Js.to_fixed2 (parseFloat bid)) sec id s)) ->
      row_change id a
        (with_reveal s (Js.parse_float (Js.to_fixed2 (parseFloat bid))) sec a).

Definition fresh_row (a : auction) : Prop :=
  commit_a a = None /\ commit_b a = None /\ bid_a a = None /\ bid_b a = None
  /\ secret_a a = None /\ secret_b a = None.

(** The effect of one request on the store. *)
Inductive store_change (st : store) : store -> Prop :=
  | store_same : store_change st st
  | store_row id a a' :
      st !! id = Some a -> row_change id a a' ->
      store_change st (<[id := a']> st)
  | store_new id a :
      st !! id = None -> fresh_row a -> store_change st (<[id := a]> st).

(** The invariant of the table: a revealed bid sits on two commits; it
    prints as the text bound in its seat's commit; every commit has the
    format the commit endpoint accepts; a revealed bid prints with two
    decimals, as an amount of at most ten million hundredths. *)
Definition sound_row (id : string) (a : auction) : Prop :=
  (forall s, not_null (bid_of s a) = true ->
     truthy (commit_a a) = true /\ truthy (commit_b a) = true)
  /\ (forall s y, bid_of s a = Some y ->
        exists sec, secret_of s a = Some sec
          /\ commit_of s a
             = Some (computeHash
                       (reveal_payload (Js.to_fixed2 y) sec id s)))
  /\ (forall s c, commit_of s a = Some c -> commit_format c = true)
  /\ (forall s y, bid_of s a = Some y ->
        exists n, 0 <= n <= 10000000 /\ Js.to_fixed2 y = Js.fixed2 n).

Definition consistent (st : store) : Prop :=
  forall id a, st !! id = Some a -> sound_row id a.

(** [a'] is [a] except, possibly, for the commit of seat [s]. *)
Definition same_but_commit (s : seat) (a a' : auction) : Prop :=
  title a' = title a /\ description a' = description a
  /\ item_url a' = item_url a
  /\ seat_a_token a' = seat_a_token a /\ seat_b_token a' = seat_b_token a
  /\ commit_of (other s) a' = commit_of (other s) a
  /\ bid_a a' = bid_a a /\ bid_b a' = bid_b a
  /\ secret_a a' = secret_a a /\ secret_b a' = secret_b a
  /\ created_at a' = created_at a.

(** The phase of a row, as GetStatus derives it from the stored fields. *)
Definition derived_phase (a : auction) : string :=
  if not_null (bid_a a) && not_null (bid_b a) then "revealed"
  else if truthy (commit_a a) && truthy (commit_b a) then "reveal"
  else "commit".

End Server.

(** ** A worked auction

    The end-to-end scenario of the specification: a sofa, seat A bids
    150.00 with the secret peanut, seat B bids 200.00 with walnut. *)

Module Scenario.
Import Db Server.

Definition id : string := "Zq3vR8x_T1aB-cD9".
Definition tokenA : string := "tA4f9Kx2LmQ7pWs0ZbN3vYc8RdHj6Tg_".
Definition tokenB : string := "tB8sU1e5JnC0rXa7MkV2yGw9PhDq3Lf-".

Definition digestA : string := computeHash "150.00|peanut|Zq3vR8x_T1aB-cD9|A".
Definition digestB : string := computeHash "200.00|walnut|Zq3vR8x_T1aB-cD9|B".

Definition create : request :=
  Create "http://localhost:3000" id tokenA tokenB 1700000000
         (JString " Sofa ") JUndefined (JString "").
Definition commitA : request := Commit id (Some tokenA) (Some digestA).
Definition commitB : request := Commit id (Some tokenB) (Some digestB).
Definition revealA : request :=
  Reveal id (Some tokenA) (JNumber (Js.of_int 150)) (Some "peanut").
Definition revealB : request :=
  Reveal id (Some tokenB) (JString "200.00") (Some "walnut").

Definition row_open : auction :=
  Auction "Sofa" None None tokenA tokenB None None None None None None
          1700000000.
Definition row_a : auction := with_commit A (Some digestA) row_open.
Definition row_ab : auction := with_commit B (Some digestB) row_a.
Definition row_revealed_a : auction :=
  with_reveal A (Js.of_int 150) "peanut" row_ab.
Definition row_revealed : auction :=
  with_reveal B (Js.of_int 200) "walnut" row_revealed_a.

Definition st_open : store := run ∅ [create].
Definition st_a : store := run ∅ [create; commitA].
Definition st_ab : store := run ∅ [create; commitA; commitB].
Definition st_revealed_a : store := run ∅ [create; commitA; commitB; revealA].
Definition st_revealed : store :=
  run ∅ [create; commitA; commitB; revealA; revealB].

(** Seat A has committed to a bid above the limit. *)
Definition digestHigh : string :=
  computeHash "250000.00|peanut|Zq3vR8x_T1aB-cD9|A".
Definition row_high : auction :=
  with_commit B (Some digestB) (with_commit A (Some digestHigh) row_open).
Definition st_high : store :=
  run ∅ [create; Commit id (Some tokenA) (Some digestHigh); commitB].

End Scenario.

(** ** Identifiers and seat tokens: [generateAuctionId], [generateToken]

    Both are [crypto.randomBytes(n).toString('base64url')]. The source of
    random bytes is an argument: [randomBytes n] is what this call of
    [crypto.randomBytes(n)] returns. *)

Module Tokens.
Import Db Server.

Definition alphabet : string :=
  "ABCDEFGHIJKLMNOPQRSTUVWXYZabcdefghijklmnopqrstuvwxyz0123456789-_".

Definition sextet_char (i : Z) : ascii :=
  match String.get (Z.to_nat i) alphabet with
  | Some c => c
  | None => "A"%char
  end.

(** Position of a character in the alphabet. *)
Definition sextet_index (c : ascii) : Z :=
  let n := Js.code c in
  if (65 <=? n) && (n <=? 90) then n - 65
  else if (97 <=? n) && (n <=? 122) then n - 71
  else if (48 <=? n) && (n <=? 57) then n + 4
  else if n =? 45 then 62 else 63.

(** [buffer.toString('base64url')]: three bytes give four characters; a
    rest of one or two bytes gives two or three, without padding. *)
Fixpoint base64url (bytes : list Z) : string :=
  match bytes with
  | a :: b :: c :: rest =>
      let n := a * 65536 + b * 256 + c in
      String (sextet_char (n / 262144))
        (String (sextet_char (n / 4096 mod 64))
           (String (sextet_char (n / 64 mod 64))
              (String (sextet_char (n mod 64)) (base64url rest))))
  | [a; b] =>
      let n := a * 1024 + b * 4 in
      String (sextet_char (n / 4096))
        (String (sextet_char (n / 64 mod 64))
           (String (sextet_char (n mod 64)) EmptyString))
  | [a] =>
      let n := a * 16 in
      String (sextet_char (n / 64)) (String (sextet_char (n mod 64)) EmptyString)
  | [] => EmptyString
  end.

Definition generateToken (randomBytes : nat -> list Z) : string :=
  base64url (randomBytes 24%nat).

Definition generateAuctionId (randomBytes : nat -> list Z) : string :=
  base64url (randomBytes 12%nat).

(** [createAuction] with its three draws, in the order of the source. *)
Definition createAuction_drawing (idBytes aBytes bBytes : nat -> list Z)
    (now : Z) (title : string) (description itemUrl : option string)
    (st : store) : option (string * string * string * store) :=
  let id := generateAuctionId idBytes in
  let seatAToken := generateToken aBytes in
  let seatBToken := generateToken bBytes in
  createAuction id seatAToken seatBToken now title description itemUrl st.

Definition is_byte (b : Z) : Prop := 0 <= b < 256.

(** What [crypto.randomBytes] promises: [n] bytes. *)
Definition is_draw (randomBytes : nat -> list Z) : Prop :=
  forall n, List.length (randomBytes n) = n /\ Forall is_byte (randomBytes n).

(** Letters, digits, hyphen and underscore. *)
Definition url_safe (c : ascii) : bool :=
  let n := Js.code c in
  ((65 <=? n) && (n <=? 90)) || ((97 <=? n) && (n <=? 122))
  || ((48 <=? n) && (n <=? 57)) || (n =? 45) || (n =? 95).

End Tokens.

(** ** Vocabulary for the life of an auction *)

Module Lifecycle.
Import Db Server.

(** The auction a request is addressed to; for Create, the id drawn. *)
Definition target (r : request) : string :=
  match r with
  | Create _ id _ _ _ _ _ _ => id
  | Commit id _ _ | ResetCommit id _ | Reveal id _ _ _
  | GetStatus id _ | GetResult id => id
  end.

(** The columns no statement of the repository updates. *)
Definition same_metadata (a a' : auction) : Prop :=
  title a' = title a /\ description a' = description a
  /\ item_url a' = item_url a
  /\ seat_a_token a' = seat_a_token a /\ seat_b_token a' = seat_b_token a
  /\ created_at a' = created_at a.

(** The phases in the order of the protocol. *)
Definition phase_rank (phase : string) : Z :=
  if String.eqb phase "revealed" then 2
  else if String.eqb phase "reveal" then 1 else 0.

Definition bar : ascii := "|".

(** No bar in the string. *)
Definition no_bar (s : string) : bool :=
  all_chars (fun c => negb (Ascii.eqb c bar)) s.

(** The number read from an amount of [n] hundredths written with two
    decimals. *)
Definition amount (n : Z) : Js.number := Js.parse_float (Js.fixed2 n).

(** Every stored bid is an amount of at most ten million hundredths. *)
Definition bids_canonical (st : store) : Prop :=
  forall id a s y, st !! id = Some a -> bid_of s a = Some y ->
    exists n, 0 <= n <= 10000000 /\ y = amount n.


Definition is_failure {X : Type} (r : response X) : bool :=
  match r with Failure _ => true | Success _ => false end.

(** The request is answered with an error. *)
Definition failed (st : store) (r : request) : bool :=
  match r with
  | Create base id a b now t d u =>
      is_failure (fst (post_auction st base id a b now t d u))
  | Commit id tok c => is_failure (fst (post_commit st id tok c))
  | ResetCommit id tok => is_failure (fst (post_reset_commit st id tok))
  | Reveal id tok bid sec => is_failure (fst (post_reveal st id tok bid sec))
  | GetStatus id tok => is_failure (get_status st id tok)
  | GetResult id => is_failure (get_result st id)
  end.

(** What a request does to the table, by the kind of change. *)
Inductive effect (st : store) (r : request) : store -> Prop :=
  | effect_none : effect st r st
  | effect_row a a' :
      st !! target r = Some a -> row_change (target r) a a' ->
      effect st r (<[target r := a']> st)
  | effect_new a :
      st !! target r = None -> fresh_row a ->
      taken seat_a_token (seat_a_token a) st = false ->
      taken seat_b_token (seat_b_token a) st = false ->
      effect st r (<[target r := a]> st).

End Lifecycle.

(** * Properties *)

(** ** The digest on the test vectors of FIPS 180-4 *)

Example sha256_abc :
  Sha256.sha256_hex "abc"
  = "ba7816bf8f01cfea414140de5dae2223b00361a396177a9cb410ff61f20015ad".
Proof. vm_compute. reflexivity. Qed.

Example sha256_empty :
  Sha256.sha256_hex ""
  = "e3b0c44298fc1c149afbf4c8996fb92427ae41e4649b934ca495991b7852b855".
Proof. vm_compute. reflexivity. Qed.

Example sha256_two_blocks :
  Sha256.sha256_hex
    "abcdbcdecdefdefgefghfghighijhijkijkljklmklmnlmnomnopnopq"
  = "248d6a61d20638b8e5c026930c3e6039a33ce45964ff2167f6ecedd419db06c1".
Proof. vm_compute. reflexivity. Qed.

(** ** Numbers: rounding, printing and reading back *)

Section NumberFacts.
Import Js.

Lemma nearest_even_close num den :
  0 < den -> 0 <= num ->
  0 <= nearest_even num den
  /\ 2 * Z.abs (nearest_even num den * den - num) <= den.
Proof.
  intros Hd Hn. unfold nearest_even.
  pose proof (Z.div_mod num den ltac:(lia)) as E.
  pose proof (Z.mod_pos_bound num den Hd) as B.
  pose proof (Z.div_pos num den Hn Hd) as Q.
  set (qt := num / den) in *. set (r := num mod den) in *.
  destruct (2 * r <? den) eqn:H1;
    [apply Z.ltb_lt in H1 | apply Z.ltb_ge in H1].
  - split; [lia | nia].
  - destruct (den <? 2 * r) eqn:H2;
      [apply Z.ltb_lt in H2 | apply Z.ltb_ge in H2].
    + split; [lia | nia].
    + destruct (Z.even qt); split; try lia; nia.
Qed.

Lemma hundredths_of_close m e n :
  e <= -7 -> 2 * Z.abs (100 * m - n * 2 ^ (- e)) <= 100 ->
  hundredths m e = n.
Proof.
  intros He Hc. unfold hundredths.
  destruct (e <? 0) eqn:E; [| apply Z.ltb_ge in E; lia].
  replace (1 - e) with (Z.succ (- e)) by lia.
  rewrite Z.pow_succ_r by lia.
  assert (HP : 2 ^ 7 <= 2 ^ (- e)) by (apply Z.pow_le_mono_r; lia).
  change (2 ^ 7) with 128 in HP.
  set (P := 2 ^ (- e)) in *.
  symmetry. apply Z.div_unique with (r := 200 * m + P - 2 * P * n); lia.
Qed.

Lemma pow2_split a b : 0 <= a -> 0 <= b -> 2 ^ (a + b) = 2 ^ a * 2 ^ b.
Proof. intros. apply Z.pow_add_r; lia. Qed.

(** The number read from [n / 100], for an amount up to 2^24 hundredths:
    finite, with a negative exponent and within half a unit in the last
    place. *)
Lemma round_ratio_hundredths n :
  1 <= n <= 2 ^ 24 ->
  exists m e, round_ratio false n 100 = S754_finite false m e
    /\ -60 <= e <= -7
    /\ 2 * Z.abs (100 * Zpos m - n * 2 ^ (- e)) <= 100.
Proof.
  intros Hn. unfold round_ratio.
  change (Z.log2 100) with 6.
  assert (HL : 0 <= Z.log2 n <= 24).
  { split; [apply Z.log2_nonneg |].
    change 24 with (Z.log2 (2 ^ 24)). apply Z.log2_le_mono. lia. }
  rewrite Z.max_l by lia.
  set (e1 := Z.log2 n - 6 - 52).
  replace (-1074 <? e1) with true by (symmetry; apply Z.ltb_lt; lia).
  cbv beta iota zeta. rewrite andb_true_l.
  set (e := if scaled_num n e1 / scaled_den 100 e1 <? 2 ^ 52
            then e1 - 1 else e1).
  assert (He : -59 <= e <= -34)
    by (subst e; destruct (_ <? _); lia).
  clearbody e. clear e1.
  unfold scaled_num, scaled_den.
  replace (e <? 0) with true by (symmetry; apply Z.ltb_lt; lia).
  assert (HP : 2 ^ 34 <= 2 ^ (- e)) by (apply Z.pow_le_mono_r; lia).
  change (2 ^ 34) with 17179869184 in HP.
  destruct (nearest_even_close (n * 2 ^ (- e)) 100) as [Hm0 Hc]; [lia | nia |].
  set (m0 := nearest_even (n * 2 ^ (- e)) 100) in *.
  destruct (m0 =? 2 ^ 53) eqn:Hcarry.
  - apply Z.eqb_eq in Hcarry.
    replace (2 ^ 52) with (Zpos 4503599627370496) by reflexivity.
    replace (971 <? e + 1) with false by (symmetry; apply Z.ltb_ge; lia).
    exists 4503599627370496%positive, (e + 1). split; [reflexivity |].
    split; [lia |].
    replace (- e) with (1 + (- (e + 1))) in Hc by lia.
    rewrite pow2_split in Hc by lia.
    change (2 ^ 1) with 2 in Hc. rewrite Hcarry in Hc.
    change (2 ^ 53) with 9007199254740992 in Hc.
    set (P := 2 ^ (- (e + 1))) in *. lia.
  - destruct m0 as [| mp | mp] eqn:Em0; [nia | | lia].
    replace (971 <? e) with false by (symmetry; apply Z.ltb_ge; lia).
    exists mp, e. split; [reflexivity |]. split; [lia |].
    set (P := 2 ^ (- e)) in *. lia.
Qed.

(** The string whose characters are the digits [ds]. *)
Local Abbreviation digits_str ds := (string_of_list_ascii (map digit_char ds)).

Lemma digit_of_char d : is_digit d -> digit_of (digit_char d) = Some d.
Proof.
  intros H.
  assert (d = 0 \/ d = 1 \/ d = 2 \/ d = 3 \/ d = 4 \/ d = 5 \/ d = 6
          \/ d = 7 \/ d = 8 \/ d = 9) as C by (unfold is_digit in H; lia).
  repeat (destruct C as [-> | C]; [reflexivity |]). subst d. reflexivity.
Qed.

Lemma digit_of_range c d : digit_of c = Some d -> 48 <= code c <= 57.
Proof.
  unfold digit_of. destruct (48 <=? code c) eqn:E1; [| discriminate].
  destruct (code c <=? 57) eqn:E2; [| discriminate].
  intros _. apply Z.leb_le in E1. apply Z.leb_le in E2. lia.
Qed.

Lemma horner_snoc ds d : horner (ds ++ [d])%list = 10 * horner ds + d.
Proof. unfold horner. rewrite fold_left_app. reflexivity. Qed.

Lemma append_cons c s t : String c s +:+ t = String c (s +:+ t).
Proof. reflexivity. Qed.

Lemma append_nil t : EmptyString +:+ t = t.
Proof. reflexivity. Qed.

Lemma digits_str_snoc ds d acc :
  digits_str (ds ++ [d])%list +:+ acc = digits_str ds +:+ String (digit_char d) acc.
Proof.
  induction ds as [| x ds IH]; [reflexivity |].
  cbn [app map string_of_list_ascii]. rewrite !append_cons. f_equal. exact IH.
Qed.

Lemma dec_digits_spec fuel : forall n acc,
  0 <= n < 2 ^ Z.of_nat (S fuel) ->
  exists ds, ds <> [] /\ Forall is_digit ds
    /\ dec_digits (S fuel) n acc = digits_str ds +:+ acc
    /\ horner ds = n.
Proof.
  induction fuel as [| fuel IH]; intros n acc Hn.
  - change (2 ^ Z.of_nat 1) with 2 in Hn. exists [n].
    assert (n = 0 \/ n = 1) as [-> | ->] by lia;
      (split; [discriminate |]; split;
       [constructor; [unfold is_digit; lia | constructor] |];
       split; reflexivity).
  - cbn [dec_digits]. destruct (n <? 10) eqn:E.
    + apply Z.ltb_lt in E. exists [n]. split; [discriminate |].
      split; [constructor; [unfold is_digit; lia | constructor] |].
      split; [| unfold horner; simpl; lia].
      rewrite Z.mod_small by lia. reflexivity.
    + apply Z.ltb_ge in E.
      destruct (IH (n / 10) (String (digit_char (n mod 10)) acc))
        as (ds & Hne & Hd & Hs & Hv).
      { rewrite Nat2Z.inj_succ, Z.pow_succ_r in Hn by lia.
        split; [apply Z.div_pos; lia |].
        apply Z.div_lt_upper_bound; lia. }
      exists (ds ++ [n mod 10])%list. split; [now destruct ds |].
      split.
      { apply Forall_app. split; [exact Hd |].
        constructor; [| constructor].
        unfold is_digit. pose proof (Z.mod_pos_bound n 10). lia. }
      split.
      { rewrite digits_str_snoc. exact Hs. }
      rewrite horner_snoc, Hv. pose proof (Z.div_mod n 10). lia.
Qed.

Lemma dec_string_spec n :
  0 <= n ->
  exists ds, ds <> [] /\ Forall is_digit ds
    /\ dec_string n = digits_str ds /\ horner ds = n.
Proof.
  intros Hn. unfold dec_string.
  destruct (dec_digits_spec (Z.to_nat (Z.log2 n)) n EmptyString)
    as (ds & H1 & H2 & H3 & H4).
  { rewrite Nat2Z.inj_succ, Z2Nat.id by apply Z.log2_nonneg.
    split; [exact Hn |].
    destruct (Z.eq_dec n 0) as [-> | Hz]; [reflexivity |].
    apply Z.log2_spec. lia. }
  exists ds. repeat split; try assumption.
  rewrite H3. clear. induction (map digit_char ds) as [| c l IH];
    [reflexivity |].
  cbn [string_of_list_ascii]. rewrite append_cons. f_equal. exact IH.
Qed.

Lemma span_digits_str ds rest :
  Forall is_digit ds -> span_digits rest = ([], rest) ->
  span_digits (digits_str ds +:+ rest) = (ds, rest).
Proof.
  intros Hd Hr. induction Hd as [| d ds Hx _ IH]; [exact Hr |].
  cbn [map string_of_list_ascii]. rewrite append_cons.
  cbn [span_digits]. rewrite (digit_of_char d Hx), IH. reflexivity.
Qed.

Lemma trim_start_digit c r d :
  digit_of c = Some d -> trim_start (String c r) = String c r.
Proof.
  intros H. apply digit_of_range in H.
  cbn [trim_start]. unfold ws1, ws2, ws3.
  repeat match goal with
         | |- context [?a <=? ?b] => destruct (Z.leb_spec a b); try lia
         | |- context [?a =? ?b] => destruct (Z.eqb_spec a b); try lia
         end.
  cbn [andb orb]. destruct r as [| c2 [| c3 r3]]; reflexivity.
Qed.

Lemma ascii_neq_code c c' : code c <> code c' -> Ascii.eqb c c' = false.
Proof. intros H. apply Ascii.eqb_neq. congruence. Qed.

Lemma strip_sign_digit c r d :
  digit_of c = Some d -> strip_sign (String c r) = (false, String c r).
Proof.
  intros H. apply digit_of_range in H. unfold strip_sign.
  rewrite !ascii_neq_code; [reflexivity | |];
    match goal with |- code c <> code ?k => change (code k) with
      (ltac:(let v := eval vm_compute in (code k) in exact v)) end; lia.
Qed.

Lemma not_infinity_digit c r d :
  digit_of c = Some d -> String.prefix "Infinity" (String c r) = false.
Proof.
  intros H. cbn [String.prefix].
  destruct (ascii_dec "I" c) as [<- | _]; [discriminate H | reflexivity].
Qed.

(** Reading back a plain decimal with an integer and a fraction part. *)
Lemma parse_float_decimal ip fp :
  ip <> [] -> Forall is_digit ip -> Forall is_digit fp ->
  parse_float (digits_str ip +:+ "." +:+ digits_str fp)
  = of_decimal false (horner (ip ++ fp)%list) (0 - Z.of_nat (List.length fp)).
Proof.
  intros Hne Hip Hfp. destruct ip as [| d ip]; [congruence |].
  pose proof (digit_of_char d (Forall_inv Hip)) as Hd.
  unfold parse_float.
  replace (digits_str (d :: ip) +:+ "." +:+ digits_str fp)
    with (String (digit_char d) (digits_str ip +:+ "." +:+ digits_str fp))
    by reflexivity.
  rewrite (trim_start_digit _ _ _ Hd), (strip_sign_digit _ _ _ Hd).
  rewrite (not_infinity_digit _ _ _ Hd).
  replace (String (digit_char d) (digits_str ip +:+ "." +:+ digits_str fp))
    with (digits_str (d :: ip) +:+ "." +:+ digits_str fp) by reflexivity.
  rewrite (span_digits_str (d :: ip) _ Hip) by reflexivity.
  change ("." +:+ digits_str fp) with (String "." (digits_str fp)).
  cbv beta iota.
  replace (digits_str fp) with (digits_str fp +:+ EmptyString).
  2:{ clear. induction (map digit_char fp) as [| c l IH]; [reflexivity |].
      cbn [string_of_list_ascii]. rewrite append_cons. f_equal. exact IH. }
  rewrite (span_digits_str fp EmptyString Hfp) by reflexivity.
  reflexivity.
Qed.

Lemma parse_fixed2 n :
  0 <= n -> parse_float (fixed2 n) = of_decimal false n (-2).
Proof.
  intros Hn. unfold fixed2.
  destruct (dec_string_spec (n / 100)) as (ip & Hne & Hip & Hs & Hv);
    [apply Z.div_pos; lia |].
  rewrite Hs.
  change (String (digit_char (n / 10 mod 10))
            (String (digit_char (n mod 10)) EmptyString))
    with (digits_str [n / 10 mod 10; n mod 10]).
  assert (Hfp : Forall is_digit [n / 10 mod 10; n mod 10]).
  { pose proof (Z.mod_pos_bound (n / 10) 10).
    pose proof (Z.mod_pos_bound n 10).
    repeat constructor; lia. }
  rewrite (parse_float_decimal ip _ Hne Hip Hfp).
  change (0 - Z.of_nat (List.length [n / 10 mod 10; n mod 10])) with (-2).
  f_equal.
  change (ip ++ [n / 10 mod 10; n mod 10])%list
    with (ip ++ [n / 10 mod 10] ++ [n mod 10])%list.
  rewrite app_assoc, !horner_snoc, Hv.
  pose proof (Z.div_mod n 10). pose proof (Z.div_mod (n / 10) 10).
  pose proof (Z.div_div n 10 10 ltac:(lia) ltac:(lia)) as D.
  change (10 * 10) with 100 in D. lia.
Qed.

(** Printing an amount of hundredths, reading it back and printing again
    gives the same text. *)
Lemma to_fixed2_parse_fixed2 n :
  0 <= n <= 2 ^ 24 -> to_fixed2 (parse_float (fixed2 n)) = fixed2 n.
Proof.
  intros Hn. rewrite parse_fixed2 by lia. unfold of_decimal.
  destruct (n =? 0) eqn:Hz.
  - apply Z.eqb_eq in Hz. subst n. reflexivity.
  - apply Z.eqb_neq in Hz.
    change (-2 <? 0) with true. change (10 ^ (- -2)) with 100.
    cbv iota.
    destruct (round_ratio_hundredths n) as (m & e & Hr & He & Hc); [lia |].
    rewrite Hr. cbn [to_fixed2].
    assert (HP : 2 ^ 7 <= 2 ^ (- e)) by (apply Z.pow_le_mono_r; lia).
    change (2 ^ 7) with 128 in HP.
    replace (at_least_1e21 (Z.pos m) e) with false.
    + rewrite (hundredths_of_close (Z.pos m) e n) by lia. apply append_nil.
    + symmetry. unfold at_least_1e21.
      replace (e <? 0) with true by (symmetry; apply Z.ltb_lt; lia).
      apply Z.leb_gt. change (10 ^ 21) with 1000000000000000000000.
      change (2 ^ 24) with 16777216 in Hn.
      set (P := 2 ^ (- e)) in *.
      assert (n * P <= 16777216 * P) by nia. lia.
Qed.

Lemma of_int_100000 :
  of_int 100000 = S754_finite false 6871947673600000 (-36).
Proof. vm_compute. reflexivity. Qed.

(** A positive finite number that is not above 100000 prints, with two
    decimals, as at most ten million hundredths. *)
Lemma amount_bound m e :
  Z.pos m * 2 ^ (e - Z.min (-36) e)
    <= 6871947673600000 * 2 ^ (-36 - Z.min (-36) e) ->
  at_least_1e21 (Z.pos m) e = false
  /\ 0 <= hundredths (Z.pos m) e <= 10000000.
Proof.
  intros H. unfold at_least_1e21, hundredths.
  change (10 ^ 21) with 1000000000000000000000.
  destruct (Z.le_gt_cases e (-36)) as [He | He].
  - rewrite Z.min_r in H by lia.
    replace (e - e) with 0 in H by lia. change (2 ^ 0) with 1 in H.
    replace (e <? 0) with true by (symmetry; apply Z.ltb_lt; lia).
    assert (E : 2 ^ (- e) = 2 ^ 36 * 2 ^ (-36 - e))
      by (rewrite <- pow2_split by lia; f_equal; lia).
    change (2 ^ 36) with 68719476736 in E.
    replace (1 - e) with (Z.succ (- e)) by lia.
    rewrite Z.pow_succ_r by lia.
    assert (0 < 2 ^ (-36 - e)) by (apply Z.pow_pos_nonneg; lia).
    set (Q := 2 ^ (-36 - e)) in *. set (P := 2 ^ (- e)) in *.
    split; [apply Z.leb_gt; lia |].
    split; [apply Z.div_pos; lia |].
    apply Z.lt_succ_r, Z.div_lt_upper_bound; lia.
  - rewrite Z.min_l in H by lia.
    change (2 ^ (-36 - -36)) with 1 in H.
    replace (e - -36) with (e + 36) in H by lia.
    destruct (e <? 0) eqn:E0; [apply Z.ltb_lt in E0 | apply Z.ltb_ge in E0].
    + assert (E : 2 ^ 36 = 2 ^ (e + 36) * 2 ^ (- e))
        by (rewrite <- pow2_split by lia; f_equal; lia).
      change (2 ^ 36) with 68719476736 in E.
      replace (1 - e) with (Z.succ (- e)) by lia.
      rewrite Z.pow_succ_r by lia.
      assert (0 < 2 ^ (e + 36)) by (apply Z.pow_pos_nonneg; lia).
      assert (0 < 2 ^ (- e)) by (apply Z.pow_pos_nonneg; lia).
      set (Q := 2 ^ (e + 36)) in *. set (P := 2 ^ (- e)) in *.
      assert (Hm : Z.pos m <= 100000 * P) by nia.
      split; [apply Z.leb_gt; lia |].
      split; [apply Z.div_pos; lia |].
      apply Z.lt_succ_r, Z.div_lt_upper_bound; lia.
    + rewrite pow2_split in H by lia.
      change (2 ^ 36) with 68719476736 in H.
      assert (0 < 2 ^ e) by (apply Z.pow_pos_nonneg; lia).
      set (P := 2 ^ e) in *.
      split; [apply Z.leb_gt; lia | lia].
Qed.

Lemma in_range_amount x :
  is_nan x = false -> le x zero = false -> gt x (of_int 100000) = false ->
  exists n, 0 <= n <= 10000000 /\ to_fixed2 x = fixed2 n.
Proof.
  rewrite of_int_100000. intros Hnan Hle Hgt.
  destruct x as [s | s | | s m e]; try discriminate.
  - destruct s; discriminate.
  - destruct s.
    + exfalso. revert Hle. unfold le, compare.
      cbn [signed_mantissa exponent zero].
      pose proof (Z.pow_nonneg 2 (e - Z.min e 0) ltac:(lia)).
      destruct (Z.compare_spec (Z.neg m * 2 ^ (e - Z.min e 0))
                               (0 * 2 ^ (0 - Z.min e 0)));
        [discriminate | discriminate | nia].
    + revert Hgt. unfold gt, lt, compare.
      cbn [signed_mantissa exponent].
      destruct (Z.compare_spec
                  (6871947673600000 * 2 ^ (-36 - Z.min (-36) e))
                  (Z.pos m * 2 ^ (e - Z.min (-36) e))) as [E | E | E];
        try discriminate; intros _.
      all: destruct (amount_bound m e) as [H1 H2]; [lia |].
      all: exists (hundredths (Z.pos m) e); split; [exact H2 |].
      all: cbn [to_fixed2]; rewrite H1; apply append_nil.
Qed.

End NumberFacts.

(** ** The repository and the handlers, one request at a time *)

Section ProtocolFacts.
Import Db Server.

Lemma validated_amount bid :
  validateBid bid = true ->
  exists n, 0 <= n <= 10000000
    /\ Js.to_fixed2 (parseFloat bid) = Js.fixed2 n.
Proof.
  unfold validateBid. intros H.
  assert (G : Js.is_nan (parseFloat bid) || Js.le (parseFloat bid) Js.zero
              || Js.gt (parseFloat bid) (Js.of_int 100000) = false).
  { destruct bid; try discriminate;
      destruct (Js.is_nan _ || Js.le _ _ || Js.gt _ _); congruence. }
  apply orb_false_elim in G as [G G3]. apply orb_false_elim in G as [G1 G2].
  now apply in_range_amount.
Qed.

(** The canonical two-decimal text of an accepted bid is a fixed point of
    reading and printing: the number stored at reveal prints as the text
    that was hashed. *)
Lemma canonical_bid_stable bid :
  validateBid bid = true ->
  Js.to_fixed2 (Js.parse_float (Js.to_fixed2 (parseFloat bid)))
  = Js.to_fixed2 (parseFloat bid).
Proof.
  intros H. destruct (validated_amount bid H) as (n & Hn & ->).
  apply to_fixed2_parse_fixed2. change (2 ^ 24) with 16777216. lia.
Qed.

Lemma truthy_Some o : truthy o = true -> exists s, o = Some s /\ s <> "".
Proof.
  destruct o as [[| c r] |]; try discriminate.
  intros _. eexists. split; [reflexivity | discriminate].
Qed.

Lemma truthy_default o : truthy o = true -> o = Some (default "" o).
Proof. destruct o as [[| c r] |]; try discriminate. reflexivity. Qed.

Lemma truthy_nonempty s : s <> "" -> truthy (Some s) = true.
Proof. destruct s; [congruence | reflexivity]. Qed.

Lemma resolved_row (st : store) id tok a s :
  getAuctionBySeatToken st id tok = Some (a, s) -> st !! id = Some a.
Proof.
  unfold getAuctionBySeatToken. destruct (st !! id) as [row |]; [| discriminate].
  destruct (_ || _); [| discriminate]. congruence.
Qed.


Lemma alter_row (f : auction -> auction) (st : store) id a :
  st !! id = Some a -> alter f id st = <[id := f a]> st.
Proof.
  intros H. apply map_eq. intros j. rewrite lookup_alter, lookup_insert.
  destruct (decide (id = j)) as [<- |]; [now rewrite H | reflexivity].
Qed.

Lemma post_commit_change st id tok c :
  store_change st (snd (post_commit st id tok c)).
Proof.
  unfold post_commit.
  destruct (negb (truthy tok) || negb (truthy c)); [constructor |].
  destruct (commit_format (default "" c)) eqn:F; [| constructor].
  cbn [negb].
  destruct (getAuctionBySeatToken st id (default "" tok)) as [[a s] |] eqn:R;
    [| constructor].
  apply resolved_row in R.
  replace (match s with A => commit_a a | B => commit_b a end)
    with (commit_of s a) by now destruct s.
  destruct (truthy (commit_of s a)) eqn:T; [constructor |].
  cbn [snd]. unfold setCommit. rewrite (alter_row _ _ _ _ R).
  apply store_row with (a := a); [exact R |]. now constructor.
Qed.

Lemma post_reset_commit_change st id tok :
  store_change st (snd (post_reset_commit st id tok)).
Proof.
  unfold post_reset_commit.
  destruct (negb (truthy tok)); [constructor |].
  destruct (getAuctionBySeatToken st id (default "" tok)) as [[a s] |] eqn:R;
    [| constructor].
  apply resolved_row in R.
  replace (match s with A => commit_b a | B => commit_a a end)
    with (commit_of (other s) a) by now destruct s.
  destruct (truthy (commit_of (other s) a)) eqn:T; [constructor |].
  cbn [snd]. unfold resetCommit. rewrite (alter_row _ _ _ _ R).
  apply store_row with (a := a); [exact R |]. now constructor.
Qed.

Lemma post_reveal_change st id tok bid sec :
  store_change st (snd (post_reveal st id tok bid sec)).
Proof.
  unfold post_reveal.
  destruct (negb (truthy tok) || is_undefined bid || negb (truthy sec));
    [constructor |].
  destruct (validateBid bid) eqn:V; [| constructor]. cbn [negb].
  destruct (getAuctionBySeatToken st id (default "" tok)) as [[a s] |] eqn:R;
    [| constructor].
  apply resolved_row in R.
  destruct (truthy (commit_a a)) eqn:Ta; [| constructor].
  destruct (truthy (commit_b a)) eqn:Tb; [| constructor].
  cbn [negb orb].
  replace (match s with A => bid_a a | B => bid_b a end)
    with (bid_of s a) by now destruct s.
  replace (match s with A => commit_a a | B => commit_b a end)
    with (commit_of s a) by now destruct s.
  destruct (bid_of s a) eqn:Hb; [constructor |]. cbn [not_null].
  case_bool_decide as Hc; [| constructor]. cbn [negb snd].
  unfold setReveal. rewrite (alter_row _ _ _ _ R).
  apply store_row with (a := a); [exact R |]. now constructor.
Qed.

Lemma post_auction_change st base id a b now t d u :
  store_change st (snd (post_auction st base id a b now t d u)).
Proof.
  unfold post_auction. destruct t; try constructor.
  destruct (Js.is_empty s || _); [constructor |].
  destruct (200 <? _); [constructor |].
  destruct (optional_trim d) as [d' |]; [| constructor].
  destruct (optional_trim u) as [u' |]; [| constructor].
  unfold createAuction. destruct (st !! id) eqn:L; [constructor |].
  destruct (taken _ _ _ || taken _ _ _); [constructor |].
  cbn [snd]. apply store_new; [exact L |]. repeat split.
Qed.

Lemma step_change st r : store_change st (step st r).
Proof.
  destruct r; cbn [step];
    auto using post_auction_change, post_commit_change,
               post_reset_commit_change, post_reveal_change, store_same.
Qed.

Lemma commit_format_truthy c : commit_format c = true -> truthy (Some c) = true.
Proof. destruct c; [discriminate | reflexivity]. Qed.

Lemma no_bid_without_commits id a s s' :
  sound_row id a -> truthy (commit_of s a) = false -> bid_of s' a = None.
Proof.
  intros (I1 & _ & _) T. destruct (bid_of s' a) eqn:E; [| reflexivity].
  destruct (I1 s') as [Ha Hb]; [now rewrite E |].
  destruct s; cbn [commit_of] in T; congruence.
Qed.

Lemma row_change_sound id a a' :
  sound_row id a -> row_change id a a' -> sound_row id a'.
Proof.
  intros I C. pose proof I as (I1 & I2 & I3 & I4).
  destruct C as [s c T F | s T | s bid sec V Ta Tb Hb Hc].
  - pose proof (no_bid_without_commits id a s A I T) as NA.
    pose proof (no_bid_without_commits id a s B I T) as NB.
    cbn [bid_of] in NA, NB.
    split; [| split; [| split]].
    + intros s'. destruct s, s'; cbn; rewrite ?NA, ?NB; discriminate.
    + intros s' y. destruct s, s'; cbn; rewrite ?NA, ?NB; discriminate.
    + intros s' c'. pose proof (I3 s' c').
      destruct s, s'; cbn in *; intros; simplify_eq; auto.
    + intros s' y. destruct s, s'; cbn; rewrite ?NA, ?NB; discriminate.
  - pose proof (no_bid_without_commits id a (other s) A I T) as NA.
    pose proof (no_bid_without_commits id a (other s) B I T) as NB.
    cbn [bid_of] in NA, NB.
    split; [| split; [| split]].
    + intros s'. destruct s, s'; cbn; rewrite ?NA, ?NB; discriminate.
    + intros s' y. destruct s, s'; cbn; rewrite ?NA, ?NB; discriminate.
    + intros s' c'. pose proof (I3 s' c').
      destruct s, s'; cbn in *; intros; simplify_eq; auto.
    + intros s' y. destruct s, s'; cbn; rewrite ?NA, ?NB; discriminate.
  - pose proof (canonical_bid_stable bid V) as St.
    destruct (validated_amount bid V) as (n & Hn & En).
    split; [| split; [| split]].
    + intros s' _. destruct s; cbn; auto.
    + intros s' y E. pose proof (I2 s' y).
      destruct s, s'; cbn in *; simplify_eq; eauto;
        (eexists; split; [reflexivity |]); rewrite St; exact Hc.
    + intros s' c'. pose proof (I3 s' c').
      destruct s, s'; cbn in *; auto.
    + intros s' y E. pose proof (I4 s' y).
      destruct s, s'; cbn in *; simplify_eq; eauto;
        exists n; (split; [exact Hn |]); rewrite St; exact En.
Qed.

Lemma fresh_row_sound id a : fresh_row a -> sound_row id a.
Proof.
  intros (H1 & H2 & H3 & H4 & _ & _). split; [| split; [| split]].
  - intros s. destruct s; cbn; rewrite ?H3, ?H4; discriminate.
  - intros s y. destruct s; cbn; rewrite ?H3, ?H4; discriminate.
  - intros s c. destruct s; cbn; rewrite ?H1, ?H2; discriminate.
  - intros s y. destruct s; cbn; rewrite ?H3, ?H4; discriminate.
Qed.

Lemma store_change_consistent st st' :
  consistent st -> store_change st st' -> consistent st'.
Proof.
  intros I C. destruct C as [| id a a' L R | id a L F]; [exact I | |];
    intros j b; rewrite lookup_insert; destruct (decide (id = j)) as [<- |];
    intros E; simplify_eq; eauto using row_change_sound, fresh_row_sound.
Qed.

Lemma run_snoc st rs r : run st (rs ++ [r]) = step (run st rs) r.
Proof. unfold run. now rewrite fold_left_app. Qed.

Lemma run_consistent st rs : consistent st -> consistent (run st rs).
Proof.
  intros I. induction rs as [| r rs IH] using rev_ind; [exact I |].
  rewrite run_snoc. eapply store_change_consistent; [exact IH |].
  apply step_change.
Qed.

Lemma reachable_consistent st : reachable st -> consistent st.
Proof.
  intros [rs ->]. apply run_consistent. intros id a E.
  rewrite lookup_empty in E. discriminate.
Qed.

(** In a reachable store a commit is absent for the handlers exactly when
    the column is null: no commit is the empty string. *)
Lemma reachable_commit_absent (st : store) id a s :
  reachable st -> st !! id = Some a ->
  (truthy (commit_of s a) = false <-> commit_of s a = None).
Proof.
  intros R L. destruct (reachable_consistent st R id a L) as (_ & _ & I3 & _).
  destruct (commit_of s a) as [c |] eqn:E.
  - rewrite (commit_format_truthy c (I3 s c E)). split; discriminate.
  - split; reflexivity.
Qed.

(** A row with a revealed bid keeps that seat's commit and bid. *)
Lemma row_change_keeps_revealed id a a' s :
  sound_row id a -> row_change id a a' -> not_null (bid_of s a) = true ->
  commit_of s a' = commit_of s a /\ bid_of s a' = bid_of s a.
Proof.
  intros I C Hs.
  destruct C as [s0 c T F | s0 T | s0 bid sec V Ta Tb Hb Hc].
  - rewrite (no_bid_without_commits id a s0 s I T) in Hs. discriminate.
  - rewrite (no_bid_without_commits id a (other s0) s I T) in Hs. discriminate.
  - destruct s0, s; cbn in *; try (rewrite Hb in Hs; discriminate); auto.
Qed.

Lemma store_change_keeps_revealed st st' id a s :
  consistent st -> store_change st st' ->
  st !! id = Some a -> not_null (bid_of s a) = true ->
  exists a', st' !! id = Some a'
    /\ commit_of s a' = commit_of s a /\ bid_of s a' = bid_of s a.
Proof.
  intros I C L Hs. destruct C as [| j b b' Lj R | j b Lj F]; [eauto | |].
  - rewrite lookup_insert. destruct (decide (j = id)) as [-> |]; [| eauto].
    simplify_eq. eexists. split; [reflexivity |].
    eapply row_change_keeps_revealed; eauto.
  - rewrite lookup_insert. destruct (decide (j = id)) as [-> |]; [| eauto].
    congruence.
Qed.

End ProtocolFacts.

Section ScenarioFacts.
Import Db Server Scenario.

Example scenario_rows :
  st_open !! id = Some row_open /\ st_a !! id = Some row_a
  /\ st_ab !! id = Some row_ab /\ st_revealed_a !! id = Some row_revealed_a
  /\ st_revealed !! id = Some row_revealed /\ st_high !! id = Some row_high.
Proof. repeat apply conj; vm_compute; reflexivity. Qed.

Example scenario_status :
  get_status st_ab id (Some tokenB)
  = Success (Status "reveal" true true false false "Sofa" None None (Some B)
                    None).
Proof. vm_compute. reflexivity. Qed.

Example scenario_result :
  get_result st_revealed id
  = Success (Revealed (Result "Sofa" None None "150.00" "200.00" "B"
                              (Some "200.00"))).
Proof. vm_compute. reflexivity. Qed.

Example scenario_wrong_secret :
  post_reveal st_ab id (Some tokenA) (JNumber (Js.of_int 150)) (Some "wrong")
  = (Failure HashMismatch, st_ab).
Proof. vm_compute. reflexivity. Qed.

Example scenario_reset :
  fst (post_reset_commit st_a id (Some tokenA)) = Success tt
  /\ fst (post_reset_commit st_ab id (Some tokenA)) = Failure Conflict.
Proof. split; vm_compute; reflexivity. Qed.

End ScenarioFacts.

(** ** The protocol operations *)

Section Operations.
Import Db Server Scenario.

Lemma with_commit_same s c a :
  commit_of s (with_commit s c a) = c /\ same_but_commit s a (with_commit s c a).
Proof. destruct s; repeat split. Qed.

Lemma post_reset_commit_resolved (st : store) id tok a s :
  tok <> "" ->
  getAuctionBySeatToken st id tok = Some (a, s) ->
  post_reset_commit st id (Some tok)
  = if truthy (commit_of (other s) a) then (Failure Conflict, st)
    else (Success tt, <[id := with_commit s None a]> st).
Proof.
  intros Ht R. pose proof (resolved_row _ _ _ _ _ R) as L.
  unfold post_reset_commit. rewrite (truthy_nonempty tok Ht).
  change (default "" (Some tok)) with tok. cbn [negb]. rewrite R.
  replace (match s with A => commit_b a | B => commit_a a end)
    with (commit_of (other s) a) by now destruct s.
  unfold resetCommit. rewrite (alter_row _ _ _ _ L). reflexivity.
Qed.

Lemma post_commit_resolved (st : store) id tok c a s :
  tok <> "" -> commit_format c = true ->
  getAuctionBySeatToken st id tok = Some (a, s) ->
  post_commit st id (Some tok) (Some c)
  = if truthy (commit_of s a) then (Failure AlreadyCommitted, st)
    else (Success tt, <[id := with_commit s (Some c) a]> st).
Proof.
  intros Ht F R. pose proof (resolved_row _ _ _ _ _ R) as L.
  unfold post_commit.
  rewrite (truthy_nonempty tok Ht), (commit_format_truthy c F).
  change (default "" (Some tok)) with tok.
  change (default "" (Some c)) with c.
  cbn [negb orb]. rewrite F, R. cbn [negb].
  replace (match s with A => commit_a a | B => commit_b a end)
    with (commit_of s a) by now destruct s.
  unfold setCommit. rewrite (alter_row _ _ _ _ L). reflexivity.
Qed.

(** C3. ResetCommit by a resolved seat succeeds exactly when the other
    seat's commit is absent (as the handler tests it: null or empty). When
    the other seat has a commit the call fails with Conflict and the store
    is unchanged; when it succeeds, the row of this auction has this
    seat's commit cleared and every other field, the other commit and
    all bids and secrets among them, as before, and no other row changes.
    In a store the operations can reach, absent is exactly null. *)
Theorem reset_commit_iff_counterpart_absent
    (st : store) id tok a s :
  tok <> "" ->
  getAuctionBySeatToken st id tok = Some (a, s) ->
  (fst (post_reset_commit st id (Some tok)) = Success tt
   <-> truthy (commit_of (other s) a) = false)
  /\ (truthy (commit_of (other s) a) = true ->
      post_reset_commit st id (Some tok) = (Failure Conflict, st))
  /\ (truthy (commit_of (other s) a) = false ->
      post_reset_commit st id (Some tok)
      = (Success tt, <[id := with_commit s None a]> st)
      /\ commit_of s (with_commit s None a) = None
      /\ same_but_commit s a (with_commit s None a))
  /\ (reachable st ->
      (truthy (commit_of (other s) a) = false
       <-> commit_of (other s) a = None)).
Proof.
  intros Ht R. rewrite (post_reset_commit_resolved st id tok a s Ht R).
  assert (Hr : reachable st ->
               (truthy (commit_of (other s) a) = false
                <-> commit_of (other s) a = None)).
  { intros Rs. eapply reachable_commit_absent; eauto using resolved_row. }
  destruct (truthy (commit_of (other s) a)); cbn [fst].
  - split; [split; discriminate |]. split; [reflexivity |].
    split; [discriminate | exact Hr].
  - split; [split; reflexivity |]. split; [discriminate |].
    split; [| exact Hr].
    intros _. split; [reflexivity |]. apply with_commit_same.
Qed.

Lemma reset_commit_iff_counterpart_absent_witness :
  post_reset_commit st_a id (Some tokenA)
  = (Success tt, <[id := with_commit A None row_a]> st_a).
Proof.
  apply (reset_commit_iff_counterpart_absent st_a id tokenA row_a A);
    [discriminate | vm_compute; reflexivity | reflexivity].
Defined.

(** C5, as the handler has it. Commit is one-shot per seat for every
    well-formed digest (64 lowercase hexadecimal characters): when the
    resolved seat already has a commit the call fails with
    AlreadyCommitted and the store is unchanged, whatever the digest, the
    stored one included; otherwise the row gets exactly that seat's commit
    set to the digest and nothing else changes. In a store the operations
    can reach, a seat has no commit exactly when the column is null. *)
Theorem commit_one_shot (st : store) id tok c a s :
  tok <> "" -> commit_format c = true ->
  getAuctionBySeatToken st id tok = Some (a, s) ->
  (truthy (commit_of s a) = true ->
   post_commit st id (Some tok) (Some c) = (Failure AlreadyCommitted, st))
  /\ (truthy (commit_of s a) = false ->
      post_commit st id (Some tok) (Some c)
      = (Success tt, <[id := with_commit s (Some c) a]> st)
      /\ commit_of s (with_commit s (Some c) a) = Some c
      /\ same_but_commit s a (with_commit s (Some c) a))
  /\ (reachable st ->
      (truthy (commit_of s a) = false <-> commit_of s a = None)).
Proof.
  intros Ht F R. rewrite (post_commit_resolved st id tok c a s Ht F R).
  assert (Hr : reachable st ->
               (truthy (commit_of s a) = false <-> commit_of s a = None)).
  { intros Rs. eapply reachable_commit_absent; eauto using resolved_row. }
  destruct (truthy (commit_of s a)).
  - split; [reflexivity |]. split; [discriminate | exact Hr].
  - split; [discriminate |]. split; [| exact Hr].
    intros _. split; [reflexivity |]. apply with_commit_same.
Qed.

Lemma commit_one_shot_witness :
  post_commit st_a id (Some tokenA) (Some digestA)
  = (Failure AlreadyCommitted, st_a).
Proof.
  apply (commit_one_shot st_a id tokenA digestA row_a A);
    [discriminate | vm_compute; reflexivity | vm_compute; reflexivity
    | vm_compute; reflexivity].
Defined.

(** C5 as stated fails: seat A has a commit, and a Commit with a digest
    that is not 64 hexadecimal characters is refused with ValidationError,
    not with AlreadyCommitted. *)
Lemma commit_malformed_digest_not_already_committed :
  getAuctionBySeatToken st_a id tokenA = Some (row_a, A)
  /\ truthy (commit_of A row_a) = true
  /\ post_commit st_a id (Some tokenA) (Some "150.00")
     = (Failure (ValidationError "Invalid commit format"), st_a)
  /\ fst (post_commit st_a id (Some tokenA) (Some "150.00"))
     <> Failure AlreadyCommitted.
Proof.
  split; [vm_compute; reflexivity |]. split; [reflexivity |].
  split; [vm_compute; reflexivity |]. vm_compute. discriminate.
Qed.

(** C9, as the handler has it. Commit checks the digest format before it
    resolves the seat: a digest that is not 64 lowercase hexadecimal
    characters is refused with ValidationError whether or not the auction
    id and seat token resolve, and NotFound is the answer only for an
    unresolved seat with a well-formed digest. *)
Theorem commit_validates_before_resolving (st : store) id tok c :
  tok <> "" -> c <> "" ->
  (commit_format c = false ->
   post_commit st id (Some tok) (Some c)
   = (Failure (ValidationError "Invalid commit format"), st))
  /\ (getAuctionBySeatToken st id tok = None ->
      commit_format c = true ->
      post_commit st id (Some tok) (Some c)
      = (Failure (NotFound "Auction not found or invalid token"), st))
  /\ (forall msg,
        fst (post_commit st id (Some tok) (Some c)) = Failure (NotFound msg) ->
        commit_format c = true /\ getAuctionBySeatToken st id tok = None).
Proof.
  intros Ht Hc. unfold post_commit.
  rewrite (truthy_nonempty tok Ht), (truthy_nonempty c Hc).
  change (default "" (Some tok)) with tok.
  change (default "" (Some c)) with c. cbn [negb orb].
  destruct (commit_format c); cbn [negb].
  - split; [discriminate |].
    destruct (getAuctionBySeatToken st id tok) as [[a s] |].
    + split; [discriminate |]. intros msg.
      destruct (truthy _); discriminate.
    + split; [reflexivity |]. intros msg _. split; reflexivity.
  - split; [reflexivity |]. split; [discriminate |]. intros msg. discriminate.
Qed.

Lemma commit_validates_before_resolving_witness :
  post_commit st_open "unknown-auction" (Some tokenA) (Some "150.00")
  = (Failure (ValidationError "Invalid commit format"), st_open).
Proof.
  apply (commit_validates_before_resolving st_open "unknown-auction" tokenA
           "150.00"); [discriminate | discriminate | reflexivity].
Defined.

(** C9 as stated fails: neither the auction id nor the token resolves, the
    digest is malformed, and the answer is ValidationError, not NotFound. *)
Lemma commit_unresolved_malformed_is_validation_error :
  getAuctionBySeatToken st_open "unknown-auction" "no-such-token" = None
  /\ commit_format "150.00" = false
  /\ post_commit st_open "unknown-auction" (Some "no-such-token")
       (Some "150.00")
     = (Failure (ValidationError "Invalid commit format"), st_open)
  /\ http_status (ValidationError "Invalid commit format") = 400.
Proof. repeat apply conj; vm_compute; reflexivity. Qed.

(** C8. For an existing auction GetStatus always succeeds; its phase is
    computed from the stored fields of the row read by this very call:
    revealed when both bids are present, else reveal when both commits
    are, else commit. A seat token that matches neither seat gives exactly
    the response of a request without token, with no seat identification. *)
Theorem get_status_phase_and_silent_token (st : store) id a :
  st !! id = Some a ->
  (forall tok, exists r,
     get_status st id tok = Success r
     /\ phase r = derived_phase a
     /\ hasCommitA r = truthy (commit_a a)
     /\ hasCommitB r = truthy (commit_b a)
     /\ hasRevealA r = not_null (bid_a a)
     /\ hasRevealB r = not_null (bid_b a))
  /\ (forall tok,
        tok <> seat_a_token a -> tok <> seat_b_token a ->
        get_status st id (Some tok) = get_status st id None
        /\ exists r, get_status st id (Some tok) = Success r
                     /\ mySeat r = None).
Proof.
  intros L. unfold get_status, getAuctionById. rewrite L. split.
  - intros tok. eexists. split; [reflexivity |]. repeat split.
  - intros tok Ha Hb.
    assert (E : (match tok with
                 | EmptyString => None
                 | String c r =>
                     if String.eqb (seat_a_token a) (String c r) then Some A
                     else if String.eqb (seat_b_token a) (String c r)
                          then Some B else None
                 end) = None).
    { destruct tok as [| c r]; [reflexivity |].
      destruct (String.eqb_spec (seat_a_token a) (String c r)); [congruence |].
      destruct (String.eqb_spec (seat_b_token a) (String c r)); [congruence |].
      reflexivity. }
    cbv beta iota zeta. rewrite E. split; [reflexivity |].
    eexists. split; reflexivity.
Qed.

Lemma get_status_phase_and_silent_token_witness :
  get_status st_ab id (Some "not-a-seat-token") = get_status st_ab id None.
Proof.
  apply (get_status_phase_and_silent_token st_ab id row_ab);
    [vm_compute; reflexivity | discriminate | discriminate].
Defined.

Lemma compare_antisym x y :
  Js.compare y x = option_map CompOpp (Js.compare x y).
Proof.
  destruct x as [sx | sx | | sx mx ex], y as [sy | sy | | sy my ey];
    cbn [Js.compare option_map]; try reflexivity;
    try (destruct sx; reflexivity); try (destruct sy; reflexivity);
    try (destruct sx, sy; reflexivity);
    f_equal; rewrite Z.compare_antisym; f_equal; f_equal;
    rewrite Z.min_comm; reflexivity.
Qed.

Lemma gt_asym x y : Js.gt x y = true -> Js.gt y x = false.
Proof.
  unfold Js.gt, Js.lt. rewrite (compare_antisym y x).
  destruct (Js.compare y x) as [[| |] |]; cbn; congruence.
Qed.

Lemma num_eq_not_gt x y :
  Js.num_eq x y = true -> Js.gt x y = false /\ Js.gt y x = false.
Proof.
  unfold Js.num_eq, Js.gt, Js.lt. rewrite (compare_antisym x y).
  destruct (Js.compare x y) as [[| |] |]; cbn; intros; split; congruence.
Qed.

(** C7. GetResult fails with NotFound exactly when no auction has the
    id. For an existing auction with a bid missing the answer is only
    revealed:false. With both bids present it reports both bids as
    [toFixed(2)] prints them and the metadata; the winner is A when
    bidA > bidB, B when bidB > bidA and TIE when the bids are numerically
    equal; the payment is the printed winning bid, and null on a tie. In
    a store the operations can reach the printed bids have exactly two
    decimals. *)
Theorem get_result_outcome (st : store) id :
  ((exists msg, get_result st id = Failure (NotFound msg)) <-> st !! id = None)
  /\ (forall a, st !! id = Some a ->
       (bid_a a = None \/ bid_b a = None ->
        get_result st id = Success NotRevealed)
       /\ (forall x y, bid_a a = Some x -> bid_b a = Some y ->
            exists r, get_result st id = Success (Revealed r)
              /\ result_title r = title a
              /\ result_description r = description a
              /\ result_itemUrl r = item_url a
              /\ bidA r = Js.to_fixed2 x /\ bidB r = Js.to_fixed2 y
              /\ (Js.gt x y = true ->
                  winner r = "A" /\ paymentAmount r = Some (Js.to_fixed2 x))
              /\ (Js.gt y x = true ->
                  winner r = "B" /\ paymentAmount r = Some (Js.to_fixed2 y))
              /\ (Js.num_eq x y = true ->
                  winner r = "TIE" /\ paymentAmount r = None)))
  /\ (reachable st ->
      forall r, get_result st id = Success (Revealed r) ->
      exists n m, 0 <= n <= 10000000 /\ 0 <= m <= 10000000
        /\ bidA r = Js.fixed2 n /\ bidB r = Js.fixed2 m).
Proof.
  split; [| split].
  3:{ intros R r. unfold get_result, getAuctionById.
      destruct (st !! id) as [a |] eqn:L; [| discriminate].
      destruct (bid_a a) as [x |] eqn:Ba; [| discriminate].
      destruct (bid_b a) as [y |] eqn:Bb; [| discriminate].
      destruct (reachable_consistent st R id a L) as (_ & _ & _ & I4).
      destruct (I4 A x Ba) as (n & Hn & En).
      destruct (I4 B y Bb) as (m & Hm & Em).
      intros E. exists n, m. rewrite <- En, <- Em.
      destruct (Js.gt x y); [| destruct (Js.gt y x)];
        injection E as <-; repeat split; lia. }
  all: unfold get_result, getAuctionById.
  - destruct (st !! id) as [a |]; split.
    + intros [msg H]. destruct (bid_a a), (bid_b a); try discriminate.
      destruct (Js.gt _ _); [discriminate |].
      destruct (Js.gt _ _); discriminate.
    + discriminate.
    + reflexivity.
    + intros _. eexists. reflexivity.
  - intros a ->. split.
    + intros [-> | ->]; [reflexivity |]. destruct (bid_a a); reflexivity.
    + intros x y -> ->.
      destruct (Js.gt x y) eqn:Gxy.
      * pose proof (gt_asym x y Gxy) as Gyx.
        eexists. split; [reflexivity |]. cbn.
        repeat (split; [reflexivity |]).
        split; [intros _; split; reflexivity |].
        split; [congruence |].
        intros E. apply num_eq_not_gt in E as [E _]. congruence.
      * destruct (Js.gt y x) eqn:Gyx.
        -- eexists. split; [reflexivity |]. cbn.
           repeat (split; [reflexivity |]).
           split; [discriminate |].
           split; [intros _; split; reflexivity |].
           intros E. apply num_eq_not_gt in E as [_ E]. congruence.
        -- eexists. split; [reflexivity |]. cbn.
           repeat (split; [reflexivity |]).
           split; [discriminate |]. split; [discriminate |].
           intros _. split; reflexivity.
Qed.

Lemma get_result_outcome_witness :
  get_result st_ab id = Success NotRevealed.
Proof.
  apply (proj1 (proj2 (get_result_outcome st_ab id)) row_ab);
    [vm_compute; reflexivity | left; reflexivity].
Defined.

Lemma run_keeps_revealed id s rs : forall (st : store) a,
  consistent st -> st !! id = Some a -> not_null (bid_of s a) = true ->
  exists a', run st rs !! id = Some a'
    /\ commit_of s a' = commit_of s a /\ bid_of s a' = bid_of s a.
Proof.
  induction rs as [| r rs IH]; intros st a I L Hs; [eauto |].
  change (run st (r :: rs)) with (run (step st r) rs).
  destruct (store_change_keeps_revealed st (step st r) id a s I
              (step_change st r) L Hs) as (a1 & L1 & C1 & B1).
  destruct (IH (step st r) a1) as (a2 & L2 & C2 & B2);
    [eapply store_change_consistent; eauto using step_change
    | exact L1 | now rewrite B1 |].
  exists a2. repeat split; congruence.
Qed.

(** C4. In a reachable store, once a seat's bid is revealed, no sequence
    of requests changes that seat's commit (or its bid): after any
    requests the row is still there with the same commit and bid for that
    seat. Both commits are present from then on, so a Commit by that seat
    fails with AlreadyCommitted, a ResetCommit by either seat fails with
    Conflict, and neither endpoint succeeds on this auction whatever it
    is sent. *)
Theorem revealed_commit_immutable (st : store) id a s :
  reachable st -> st !! id = Some a -> not_null (bid_of s a) = true ->
  (forall rs, exists a',
      run st rs !! id = Some a'
      /\ commit_of s a' = commit_of s a /\ bid_of s a' = bid_of s a)
  /\ (forall tok c,
        tok <> "" -> commit_format c = true ->
        getAuctionBySeatToken st id tok = Some (a, s) ->
        post_commit st id (Some tok) (Some c) = (Failure AlreadyCommitted, st))
  /\ (forall tok s',
        tok <> "" -> getAuctionBySeatToken st id tok = Some (a, s') ->
        post_reset_commit st id (Some tok) = (Failure Conflict, st))
  /\ (forall tok c, fst (post_commit st id tok c) <> Success tt)
  /\ (forall tok, fst (post_reset_commit st id tok) <> Success tt).
Proof.
  intros R L Hs. pose proof (reachable_consistent st R) as I.
  destruct (I id a L) as (I1 & _ & _). destruct (I1 s Hs) as [Ta Tb].
  assert (T : forall s0, truthy (commit_of s0 a) = true)
    by (intros []; assumption).
  split; [intros rs; now apply run_keeps_revealed |].
  split.
  { intros tok c Ht F Rs.
    now rewrite (post_commit_resolved st id tok c a s Ht F Rs), T. }
  split.
  { intros tok s' Ht Rs.
    now rewrite (post_reset_commit_resolved st id tok a s' Ht Rs), T. }
  split.
  - intros tok c. unfold post_commit.
    destruct (negb (truthy tok) || negb (truthy c)); [discriminate |].
    destruct (negb (commit_format _)); [discriminate |].
    destruct (getAuctionBySeatToken st id _) as [[a0 s0] |] eqn:Rs;
      [| discriminate].
    pose proof (resolved_row _ _ _ _ _ Rs). simplify_eq.
    replace (match s0 with A => commit_a a | B => commit_b a end)
      with (commit_of s0 a) by now destruct s0.
    rewrite T. discriminate.
  - intros tok. unfold post_reset_commit.
    destruct (negb (truthy tok)); [discriminate |].
    destruct (getAuctionBySeatToken st id _) as [[a0 s0] |] eqn:Rs;
      [| discriminate].
    pose proof (resolved_row _ _ _ _ _ Rs). simplify_eq.
    replace (match s0 with A => commit_b a | B => commit_a a end)
      with (commit_of (other s0) a) by now destruct s0.
    rewrite T. discriminate.
Qed.

Lemma reachable_run rs : reachable (run ∅ rs).
Proof. now exists rs. Qed.

Lemma revealed_commit_immutable_witness :
  exists a',
    run st_revealed_a
        [ResetCommit id (Some tokenA); Commit id (Some tokenA) (Some digestB);
         ResetCommit id (Some tokenB); revealB] !! id = Some a'
    /\ commit_of A a' = commit_of A row_revealed_a
    /\ bid_of A a' = bid_of A row_revealed_a.
Proof.
  apply (proj1 (revealed_commit_immutable st_revealed_a id row_revealed_a A
                  (reachable_run _) ltac:(vm_compute; reflexivity)
                  ltac:(reflexivity))).
Defined.

Lemma validated_defined bid : validateBid bid = true -> is_undefined bid = false.
Proof. destruct bid; (discriminate || reflexivity). Qed.

Lemma post_reveal_resolved (st : store) id tok bid sec a s :
  tok <> "" -> sec <> "" -> validateBid bid = true ->
  getAuctionBySeatToken st id tok = Some (a, s) ->
  truthy (commit_a a) = true -> truthy (commit_b a) = true ->
  bid_of s a = None ->
  post_reveal st id (Some tok) bid (Some sec)
  = if bool_decide
         (Some (computeHash
                  (reveal_payload (Js.to_fixed2 (parseFloat bid)) sec id s))
          = commit_of s a)
    then (Success tt,
          <[id := with_reveal s
                    (Js.parse_float (Js.to_fixed2 (parseFloat bid))) sec a]> st)
    else (Failure HashMismatch, st).
Proof.
  intros Ht Hs V R Ta Tb Hb. pose proof (resolved_row _ _ _ _ _ R) as L.
  unfold post_reveal.
  rewrite (truthy_nonempty tok Ht), (truthy_nonempty sec Hs).
  rewrite (validated_defined bid V), V.
  change (default "" (Some tok)) with tok.
  change (default "" (Some sec)) with sec.
  cbn [negb orb]. rewrite R, Ta, Tb. cbn [negb orb].
  replace (match s with A => bid_a a | B => bid_b a end)
    with (bid_of s a) by now destruct s.
  replace (match s with A => commit_a a | B => commit_b a end)
    with (commit_of s a) by now destruct s.
  rewrite Hb. cbn [not_null].
  unfold setReveal. rewrite (alter_row _ _ _ _ L).
  case_bool_decide; reflexivity.
Qed.

(** C1, as the handler has it. For a request that passes the checks made
    before the hash is looked at (the seat token is present and resolves,
    the secret is not empty, the bid is accepted by validateBid), on an
    auction with both commits present and this seat's bid not yet set:
    Reveal succeeds exactly when the SHA-256 digest of the canonical bid,
    the secret, the auction id and the seat label equals the commit
    stored for the seat; when they differ it fails with HashMismatch and
    the store, the commit included, is left as it was, so the seat can
    try again. *)
Theorem reveal_succeeds_iff_digest_matches (st : store) id tok bid sec a s :
  tok <> "" -> sec <> "" -> validateBid bid = true ->
  getAuctionBySeatToken st id tok = Some (a, s) ->
  truthy (commit_a a) = true -> truthy (commit_b a) = true ->
  bid_of s a = None ->
  let digest :=
    computeHash (reveal_payload (Js.to_fixed2 (parseFloat bid)) sec id s) in
  (fst (post_reveal st id (Some tok) bid (Some sec)) = Success tt
   <-> commit_of s a = Some digest)
  /\ (commit_of s a <> Some digest ->
      post_reveal st id (Some tok) bid (Some sec) = (Failure HashMismatch, st))
  /\ (commit_of s a = Some digest ->
      post_reveal st id (Some tok) bid (Some sec)
      = (Success tt,
         <[id := with_reveal s
                   (Js.parse_float (Js.to_fixed2 (parseFloat bid))) sec a]> st)).
Proof.
  intros Ht Hs V R Ta Tb Hb digest.
  rewrite (post_reveal_resolved st id tok bid sec a s Ht Hs V R Ta Tb Hb).
  fold digest. case_bool_decide as E; cbn [fst].
  - split; [split; congruence |]. split; congruence.
  - split; [split; [discriminate | congruence] |]. split; congruence.
Qed.

Lemma reveal_succeeds_iff_digest_matches_witness :
  post_reveal st_ab id (Some tokenA) (JNumber (Js.of_int 150)) (Some "wrong")
  = (Failure HashMismatch, st_ab).
Proof.
  apply (reveal_succeeds_iff_digest_matches st_ab id tokenA
           (JNumber (Js.of_int 150)) "wrong" row_ab A);
    [discriminate | discriminate | vm_compute; reflexivity
    | vm_compute; reflexivity | reflexivity | reflexivity | reflexivity
    | vm_compute; discriminate].
Defined.

(** C1 as stated fails: both commits are present, seat A has not revealed,
    and the digest computed from the supplied bid 250000 and secret is the
    commit stored for seat A; yet Reveal does not succeed, because the bid
    is above the limit of validateBid. *)
Lemma reveal_matching_digest_rejected :
  getAuctionBySeatToken st_high id tokenA = Some (row_high, A)
  /\ truthy (commit_a row_high) = true /\ truthy (commit_b row_high) = true
  /\ bid_of A row_high = None
  /\ commit_of A row_high
     = Some (computeHash
               (reveal_payload
                  (Js.to_fixed2 (parseFloat (JNumber (Js.of_int 250000))))
                  "peanut" id A))
  /\ post_reveal st_high id (Some tokenA) (JNumber (Js.of_int 250000))
       (Some "peanut")
     = (Failure (ValidationError
                   "Invalid bid: must be > 0, <= 100000, max 2 decimals"),
        st_high).
Proof. repeat apply conj; vm_compute; reflexivity. Qed.

Lemma length_append s t :
  String.length (s +:+ t) = (String.length s + String.length t)%nat.
Proof.
  induction s as [| c s IH]; [reflexivity |].
  rewrite append_cons. cbn [String.length]. now rewrite IH.
Qed.

Lemma append_inj_r s t t' : s +:+ t = s +:+ t' -> t = t'.
Proof.
  induction s as [| c s IH]; [now rewrite !append_nil |].
  rewrite !append_cons. intros [= H]. exact (IH H).
Qed.

Lemma append_inj_l t : forall s s', s +:+ t = s' +:+ t -> s = s'.
Proof.
  induction s as [| c s IH]; intros [| c' s'] H.
  - reflexivity.
  - apply (f_equal String.length) in H.
    rewrite append_nil, append_cons in H. cbn [String.length] in H.
    rewrite length_append in H. lia.
  - apply (f_equal String.length) in H.
    rewrite append_nil, append_cons in H. cbn [String.length] in H.
    rewrite length_append in H. lia.
  - rewrite !append_cons in H. injection H as -> H. f_equal. exact (IH _ H).
Qed.

Lemma lower_hex_digit z : lower_hex (Sha256.hex_digit z) = true.
Proof.
  destruct z as [| p | p]; [reflexivity | | reflexivity].
  repeat (destruct p as [p | p |]; try reflexivity).
Qed.

(** A digest is 64 lowercase hexadecimal characters. *)
Lemma computeHash_format payload : commit_format (computeHash payload) = true.
Proof.
  unfold computeHash, Sha256.sha256_hex.
  destruct (Sha256.digest _) as [a b c d e f g h].
  unfold commit_format, Sha256.hex_of_regs, Sha256.hex_word, Sha256.nibble.
  cbn [Sha256.ra Sha256.rb Sha256.rc Sha256.rd Sha256.re Sha256.rf
       Sha256.rg Sha256.rh String.length all_chars].
  rewrite !lower_hex_digit. reflexivity.
Qed.

(** C2. The digest that Reveal compares with the stored commit is the
    lowercase hexadecimal SHA-256 of the bid with exactly two decimals,
    the secret, the auction id and the seat label, in this order, joined
    by single bars; it is 64 lowercase hexadecimal characters; being a
    function of the four parts it is deterministic; and changing any one
    part, the others fixed, changes the payload. *)
Theorem commitment_digest_binding :
  (forall (st : store) id tok bid sec a s,
      tok <> "" -> sec <> "" -> validateBid bid = true ->
      getAuctionBySeatToken st id tok = Some (a, s) ->
      truthy (commit_a a) = true -> truthy (commit_b a) = true ->
      bid_of s a = None ->
      (fst (post_reveal st id (Some tok) bid (Some sec)) = Success tt
       <-> commit_of s a
           = Some (Sha256.sha256_hex
                     (String.concat "|"
                        [Js.to_fixed2 (parseFloat bid); sec; id;
                         seat_label s]))))
  /\ (forall bid, validateBid bid = true ->
        exists n, 0 <= n <= 10000000
          /\ Js.to_fixed2 (parseFloat bid)
             = Js.dec_string (n / 100) +:+ "."
               +:+ String (Js.digit_char (n / 10 mod 10))
                     (String (Js.digit_char (n mod 10)) EmptyString))
  /\ (forall payload, commit_format (computeHash payload) = true)
  /\ (forall b b' sec id s,
        b <> b' -> reveal_payload b sec id s <> reveal_payload b' sec id s)
  /\ (forall b sec sec' id s,
        sec <> sec' -> reveal_payload b sec id s <> reveal_payload b sec' id s)
  /\ (forall b sec id id' s,
        id <> id' -> reveal_payload b sec id s <> reveal_payload b sec id' s)
  /\ (forall b sec id s s',
        s <> s' -> reveal_payload b sec id s <> reveal_payload b sec id s').
Proof.
  split.
  { intros st id tok bid sec a s Ht Hs V R Ta Tb Hb.
    rewrite (post_reveal_resolved st id tok bid sec a s Ht Hs V R Ta Tb Hb).
    change (String.concat "|" [Js.to_fixed2 (parseFloat bid); sec; id;
                               seat_label s])
      with (reveal_payload (Js.to_fixed2 (parseFloat bid)) sec id s).
    change Sha256.sha256_hex with computeHash.
    case_bool_decide as E; cbn [fst]; split; congruence. }
  split; [exact validated_amount |].
  split; [exact computeHash_format |].
  unfold reveal_payload. repeat split.
  - intros b b' sec id s N E. apply N. eapply append_inj_l. exact E.
  - intros b sec sec' id s N E. apply N.
    do 2 apply append_inj_r in E. eapply append_inj_l. exact E.
  - intros b sec id id' s N E. apply N.
    do 4 apply append_inj_r in E. eapply append_inj_l. exact E.
  - intros b sec id s s' N E. apply N.
    do 6 apply append_inj_r in E. destruct s, s'; (reflexivity || discriminate).
Qed.

Lemma commitment_digest_binding_witness :
  fst (post_reveal st_ab id (Some tokenA) (JNumber (Js.of_int 150))
         (Some "peanut")) = Success tt.
Proof.
  apply (proj1 commitment_digest_binding st_ab id tokenA
           (JNumber (Js.of_int 150)) "peanut" row_ab A);
    [discriminate | discriminate | vm_compute; reflexivity
    | vm_compute; reflexivity | reflexivity | reflexivity | reflexivity
    | vm_compute; reflexivity].
Defined.

Lemma post_reveal_success (st st' : store) id tok bid sec :
  post_reveal st id tok bid sec = (Success tt, st') ->
  exists a s,
    getAuctionBySeatToken st id (default "" tok) = Some (a, s)
    /\ validateBid bid = true
    /\ commit_of s a
       = Some (computeHash
                 (reveal_payload (Js.to_fixed2 (parseFloat bid))
                    (default "" sec) id s))
    /\ st' = <[id := with_reveal s
                       (Js.parse_float (Js.to_fixed2 (parseFloat bid)))
                       (default "" sec) a]> st.
Proof.
  unfold post_reveal.
  destruct (negb (truthy tok) || is_undefined bid || negb (truthy sec));
    [discriminate |].
  destruct (validateBid bid) eqn:V; [| discriminate]. cbn [negb].
  destruct (getAuctionBySeatToken st id (default "" tok)) as [[a s] |] eqn:R;
    [| discriminate].
  pose proof (resolved_row _ _ _ _ _ R) as L.
  destruct (negb (truthy (commit_a a)) || negb (truthy (commit_b a)));
    [discriminate |].
  destruct (not_null _); [discriminate |].
  replace (match s with A => commit_a a | B => commit_b a end)
    with (commit_of s a) by now destruct s.
  case_bool_decide as Hc; [| discriminate]. cbn [negb].
  unfold setReveal. rewrite (alter_row _ _ _ _ L). intros [= <-].
  exists a, s. repeat split; congruence.
Qed.

(** C10. A successful Reveal stores, as the seat's bid, the number read
    back from the two-decimal text that was hashed, with the secret; that
    number prints with two decimals as the very text that was hashed.
    Hence in every reachable store the two bid strings GetResult returns
    are the canonical bid strings bound, with the stored secrets, in the
    commits of their seats. *)
Theorem revealed_bid_is_canonical :
  (forall (st st' : store) id tok bid sec,
      post_reveal st id tok bid sec = (Success tt, st') ->
      exists a' s,
        let c := Js.to_fixed2 (parseFloat bid) in
        st' !! id = Some a'
        /\ bid_of s a' = Some (Js.parse_float c)
        /\ secret_of s a' = Some (default "" sec)
        /\ Js.to_fixed2 (Js.parse_float c) = c
        /\ commit_of s a'
           = Some (computeHash (reveal_payload c (default "" sec) id s)))
  /\ (forall (st : store) id r,
        reachable st -> get_result st id = Success (Revealed r) ->
        exists a secA secB,
          st !! id = Some a
          /\ secret_a a = Some secA /\ secret_b a = Some secB
          /\ commit_a a
             = Some (computeHash (reveal_payload (bidA r) secA id A))
          /\ commit_b a
             = Some (computeHash (reveal_payload (bidB r) secB id B))).
Proof.
  split.
  - intros st st' id tok bid sec H.
    destruct (post_reveal_success _ _ _ _ _ _ H) as (a & s & R & V & Hc & ->).
    eexists _, s. cbv zeta. rewrite lookup_insert_eq.
    split; [reflexivity |].
    split; [now destruct s |]. split; [now destruct s |].
    split; [exact (canonical_bid_stable bid V) |].
    rewrite <- Hc. now destruct s.
  - intros st id r R. unfold get_result, getAuctionById.
    destruct (st !! id) as [a |] eqn:L; [| discriminate].
    destruct (bid_a a) as [x |] eqn:Ba; [| discriminate].
    destruct (bid_b a) as [y |] eqn:Bb; [| discriminate].
    destruct (reachable_consistent st R id a L) as (_ & I2 & _).
    destruct (I2 A x Ba) as (secA & SA & CA).
    destruct (I2 B y Bb) as (secB & SB & CB).
    intros E. exists a, secA, secB.
    assert (bidA r = Js.to_fixed2 x /\ bidB r = Js.to_fixed2 y) as [-> ->].
    { destruct (Js.gt x y); [| destruct (Js.gt y x)];
        injection E as <-; split; reflexivity. }
    repeat split; assumption.
Qed.

Lemma revealed_bid_is_canonical_witness :
  exists a secA secB,
    st_revealed !! id = Some a
    /\ secret_a a = Some secA /\ secret_b a = Some secB
    /\ commit_a a = Some (computeHash (reveal_payload "150.00" secA id A))
    /\ commit_b a = Some (computeHash (reveal_payload "200.00" secB id B)).
Proof.
  apply (proj2 revealed_bid_is_canonical st_revealed id
           (Result "Sofa" None None "150.00" "200.00" "B" (Some "200.00"))
           (reachable_run _)).
  vm_compute. reflexivity.
Defined.

(** C6 does not hold of validateBid: text that is not a number is accepted
    when it starts with one ([parseFloat] reads the longest numeric prefix
    and the rest is never looked at), as is a number with seven decimals
    whose text is in exponent notation; and a decimal in exponent notation
    with one fractional digit is refused. Reveal then hashes and stores
    the canonical amounts 12.00 and 0.00. *)
Theorem validateBid_accepts_non_numeric_text :
  validateBid (JString "12abc") = true
  /\ validateBid (JString "1.5.123") = true
  /\ validateBid (JNumber (Js.of_decimal false 1 (-7))) = true
  /\ validateBid (JString "1.5e3") = false
  /\ Js.to_fixed2 (parseFloat (JString "12abc")) = "12.00"
  /\ to_string (JNumber (Js.of_decimal false 1 (-7))) = "1e-7"
  /\ Js.to_fixed2 (parseFloat (JNumber (Js.of_decimal false 1 (-7)))) = "0.00".
Proof. repeat apply conj; vm_compute; reflexivity. Qed.

End Operations.

(** ** The rest of the engine: creation, tokens, and how requests compose *)

Section Coverage.
Import Db Server Scenario Tokens Lifecycle.

Lemma post_auction_effect st base id a b now t d u :
  effect st (Create base id a b now t d u)
         (snd (post_auction st base id a b now t d u)).
Proof.
  unfold post_auction. destruct t; try constructor.
  destruct (Js.is_empty s || _); [constructor |].
  destruct (200 <? _); [constructor |].
  destruct (optional_trim d) as [d' |]; [| constructor].
  destruct (optional_trim u) as [u' |]; [| constructor].
  unfold createAuction. destruct (st !! id) eqn:L; [constructor |].
  destruct (taken seat_a_token a st) eqn:Ta; [constructor |].
  destruct (taken seat_b_token b st) eqn:Tb; [constructor |].
  cbn [orb snd].
  apply (effect_new st (Create base id a b now (JString s) d u));
    [exact L | repeat split | exact Ta | exact Tb].
Qed.

Lemma post_commit_effect st id tok c :
  effect st (Commit id tok c) (snd (post_commit st id tok c)).
Proof.
  unfold post_commit.
  destruct (negb (truthy tok) || negb (truthy c)); [constructor |].
  destruct (commit_format (default "" c)) eqn:F; [| constructor].
  cbn [negb].
  destruct (getAuctionBySeatToken st id (default "" tok)) as [[a s] |] eqn:R;
    [| constructor].
  apply resolved_row in R.
  replace (match s with A => commit_a a | B => commit_b a end)
    with (commit_of s a) by now destruct s.
  destruct (truthy (commit_of s a)) eqn:T; [constructor |].
  cbn [snd]. unfold setCommit. rewrite (alter_row _ _ _ _ R).
  apply (effect_row st (Commit id tok c) a); [exact R |]. now constructor.
Qed.

Lemma post_reset_commit_effect st id tok :
  effect st (ResetCommit id tok) (snd (post_reset_commit st id tok)).
Proof.
  unfold post_reset_commit.
  destruct (negb (truthy tok)); [constructor |].
  destruct (getAuctionBySeatToken st id (default "" tok)) as [[a s] |] eqn:R;
    [| constructor].
  apply resolved_row in R.
  replace (match s with A => commit_b a | B => commit_a a end)
    with (commit_of (other s) a) by now destruct s.
  destruct (truthy (commit_of (other s) a)) eqn:T; [constructor |].
  cbn [snd]. unfold resetCommit. rewrite (alter_row _ _ _ _ R).
  apply (effect_row st (ResetCommit id tok) a); [exact R |]. now constructor.
Qed.

Lemma post_reveal_effect st id tok bid sec :
  effect st (Reveal id tok bid sec) (snd (post_reveal st id tok bid sec)).
Proof.
  unfold post_reveal.
  destruct (negb (truthy tok) || is_undefined bid || negb (truthy sec));
    [constructor |].
  destruct (validateBid bid) eqn:V; [| constructor]. cbn [negb].
  destruct (getAuctionBySeatToken st id (default "" tok)) as [[a s] |] eqn:R;
    [| constructor].
  apply resolved_row in R.
  destruct (truthy (commit_a a)) eqn:Ta; [| constructor].
  destruct (truthy (commit_b a)) eqn:Tb; [| constructor].
  cbn [negb orb].
  replace (match s with A => bid_a a | B => bid_b a end)
    with (bid_of s a) by now destruct s.
  replace (match s with A => commit_a a | B => commit_b a end)
    with (commit_of s a) by now destruct s.
  destruct (bid_of s a) eqn:Hb; [constructor |]. cbn [not_null].
  case_bool_decide as Hc; [| constructor]. cbn [negb snd].
  unfold setReveal. rewrite (alter_row _ _ _ _ R).
  apply (effect_row st (Reveal id tok bid sec) a); [exact R |].
  now constructor.
Qed.

Lemma step_effect st r : effect st r (step st r).
Proof.
  destruct r; cbn [step];
    auto using post_auction_effect, post_commit_effect,
               post_reset_commit_effect, post_reveal_effect, effect_none.
Qed.

Lemma row_change_metadata id a a' : row_change id a a' -> same_metadata a a'.
Proof. intros [s c _ _ | s _ | s bid sec _ _ _ _ _]; destruct s; repeat split. Qed.

(** X1. A request that is answered with an error leaves the table exactly
    as it was, whichever of the six operations it is and whichever check
    refused it. *)
Theorem failed_request_changes_nothing (st : store) r :
  failed st r = true -> step st r = st.
Proof.
  destruct r as [base id a b now t d u | id tok c | id tok | id tok bid sec
                | id tok | id]; cbn [failed step]; [| | | | reflexivity ..].
  - unfold post_auction. destruct t; try reflexivity.
    destruct (Js.is_empty s || _); [reflexivity |].
    destruct (200 <? _); [reflexivity |].
    destruct (optional_trim d); [| reflexivity].
    destruct (optional_trim u); [| reflexivity].
    destruct (createAuction _ _ _ _ _ _ _ _) as [[[[i x] y] st'] |];
      [discriminate | reflexivity].
  - unfold post_commit.
    destruct (negb (truthy tok) || negb (truthy c)); [reflexivity |].
    destruct (negb (commit_format _)); [reflexivity |].
    destruct (getAuctionBySeatToken _ _ _) as [[a s] |]; [| reflexivity].
    destruct (truthy _); [reflexivity | discriminate].
  - unfold post_reset_commit.
    destruct (negb (truthy tok)); [reflexivity |].
    destruct (getAuctionBySeatToken _ _ _) as [[a s] |]; [| reflexivity].
    destruct (truthy _); [reflexivity | discriminate].
  - unfold post_reveal.
    destruct (negb (truthy tok) || is_undefined bid || negb (truthy sec));
      [reflexivity |].
    destruct (negb (validateBid bid)); [reflexivity |].
    destruct (getAuctionBySeatToken _ _ _) as [[a s] |]; [| reflexivity].
    destruct (negb (truthy (commit_a a)) || negb (truthy (commit_b a)));
      [reflexivity |].
    destruct (not_null _); [reflexivity |].
    destruct (negb (bool_decide _)); [reflexivity | discriminate].
Qed.

Lemma failed_request_changes_nothing_witness :
  step st_ab (Reveal id (Some tokenA) (JNumber (Js.of_int 150)) (Some "wrong"))
  = st_ab.
Proof.
  apply (failed_request_changes_nothing st_ab
           (Reveal id (Some tokenA) (JNumber (Js.of_int 150)) (Some "wrong"))).
  vm_compute. reflexivity.
Defined.

(** X2. A request changes no row but the one of the auction it is addressed
    to: every other auction reads the same before and after, whatever the
    request and whether it succeeds. *)
Theorem request_touches_only_its_auction (st : store) r j :
  j <> target r -> step st r !! j = st !! j.
Proof.
  intros N. destruct (step_effect st r) as [| a a' _ _ | a _ _ _ _];
    [reflexivity | |]; now rewrite lookup_insert_ne.
Qed.

Lemma request_touches_only_its_auction_witness :
  step st_ab (Create "http://localhost:3000" "another-auction" "ta" "tb" 1
                (JString "Lamp") JNull JNull) !! id
  = st_ab !! id.
Proof.
  apply (request_touches_only_its_auction st_ab
           (Create "http://localhost:3000" "another-auction" "ta" "tb" 1
              (JString "Lamp") JNull JNull) id).
  discriminate.
Defined.

Lemma step_keeps_row (st : store) r id a :
  st !! id = Some a ->
  exists a', step st r !! id = Some a' /\ same_metadata a a'.
Proof.
  intros L. destruct (step_effect st r) as [| b b' Lb C | b Lb _ _ _].
  - exists a. split; [exact L | repeat split].
  - rewrite lookup_insert. destruct (decide (target r = id)) as [E |].
    + rewrite E in Lb. simplify_eq. eauto using row_change_metadata.
    + exists a. split; [exact L | repeat split].
  - rewrite lookup_insert. destruct (decide (target r = id)) as [E |].
    + rewrite E in Lb. congruence.
    + exists a. split; [exact L | repeat split].
Qed.

(** X3. No request sequence deletes an auction or rewrites what creation
    stored: after any requests the row is still there with the same
    title, description, item URL, seat tokens and creation time. *)
Theorem auction_rows_persist (rs : list request) : forall (st : store) id a,
  st !! id = Some a ->
  exists a', run st rs !! id = Some a' /\ same_metadata a a'.
Proof.
  induction rs as [| r rs IH]; intros st id a L.
  - exists a. split; [exact L | repeat split].
  - change (run st (r :: rs)) with (run (step st r) rs).
    destruct (step_keeps_row st r id a L) as (a1 & L1 & M1).
    destruct (IH _ _ _ L1) as (a2 & L2 & M2).
    exists a2. split; [exact L2 |].
    destruct M1 as (? & ? & ? & ? & ? & ?), M2 as (? & ? & ? & ? & ? & ?).
    repeat split; congruence.
Qed.

Lemma auction_rows_persist_witness :
  exists a', run st_open [commitA; commitB; revealA; revealB] !! id = Some a'
             /\ same_metadata row_open a'.
Proof.
  apply (auction_rows_persist [commitA; commitB; revealA; revealB]
           st_open id row_open).
  vm_compute. reflexivity.
Defined.

Lemma resolve_insert (st : store) id tok a a' s :
  getAuctionBySeatToken st id tok = Some (a, s) -> same_metadata a a' ->
  getAuctionBySeatToken (<[id := a']> st) id tok = Some (a', s).
Proof.
  intros R (_ & _ & _ & Ea & Eb & _). revert R. unfold getAuctionBySeatToken.
  rewrite lookup_insert_eq, Ea, Eb.
  destruct (st !! id) as [row |]; [| discriminate].
  destruct (String.eqb (seat_a_token row) tok) eqn:E1;
    destruct (String.eqb (seat_b_token row) tok) eqn:E2; cbn [orb];
    intros [= <- <-]; rewrite ?E1, ?E2; reflexivity.
Qed.

Lemma with_commit_undo s c a :
  commit_of s a = None -> with_commit s None (with_commit s (Some c) a) = a.
Proof. destruct a, s; cbn; intros ->; reflexivity. Qed.

(** X4. Commit followed by ResetCommit is a round trip: when a seat without
    a commit commits and, the other seat still not having committed,
    resets, both calls succeed and the table is exactly the one before the
    commit, so the seat can commit a different digest. *)
Theorem commit_then_reset_restores (st : store) id tok c a s :
  tok <> "" -> commit_format c = true ->
  getAuctionBySeatToken st id tok = Some (a, s) ->
  commit_of s a = None -> truthy (commit_of (other s) a) = false ->
  fst (post_commit st id (Some tok) (Some c)) = Success tt
  /\ post_reset_commit (snd (post_commit st id (Some tok) (Some c))) id
       (Some tok)
     = (Success tt, st).
Proof.
  intros Ht F R Hn To. pose proof (resolved_row _ _ _ _ _ R) as L.
  rewrite (post_commit_resolved st id tok c a s Ht F R), Hn. cbn [truthy fst snd].
  split; [reflexivity |].
  assert (R' : getAuctionBySeatToken (<[id := with_commit s (Some c) a]> st)
                 id tok = Some (with_commit s (Some c) a, s)).
  { apply (resolve_insert st id tok a _ s R). destruct s; repeat split. }
  rewrite (post_reset_commit_resolved _ id tok _ s Ht R').
  replace (commit_of (other s) (with_commit s (Some c) a))
    with (commit_of (other s) a) by now destruct s.
  rewrite To, (with_commit_undo s c a Hn), insert_insert_eq.
  now rewrite (insert_id st id a L).
Qed.

Lemma commit_then_reset_restores_witness :
  post_reset_commit (snd (post_commit st_open id (Some tokenA) (Some digestA)))
    id (Some tokenA)
  = (Success tt, st_open).
Proof.
  apply (commit_then_reset_restores st_open id tokenA digestA row_open A);
    [discriminate | vm_compute; reflexivity | vm_compute; reflexivity
    | reflexivity | reflexivity].
Defined.




(** X6. Reveal needs both commits: while a commit of either seat is
    missing no Reveal on the auction succeeds, whatever it is sent, and a
    well-formed request of a resolved seat is answered with
    PreconditionFailed, the table unchanged. *)
Theorem reveal_needs_both_commits (st : store) id a :
  st !! id = Some a ->
  truthy (commit_a a) && truthy (commit_b a) = false ->
  (forall tok bid sec, fst (post_reveal st id tok bid sec) <> Success tt)
  /\ (forall tok bid sec s,
        tok <> "" -> sec <> "" -> validateBid bid = true ->
        getAuctionBySeatToken st id tok = Some (a, s) ->
        post_reveal st id (Some tok) bid (Some sec)
        = (Failure PreconditionFailed, st)).
Proof.
  intros L T.
  assert (G : negb (truthy (commit_a a)) || negb (truthy (commit_b a)) = true)
    by (destruct (truthy (commit_a a)), (truthy (commit_b a));
        (discriminate || reflexivity)).
  split.
  - intros tok bid sec. unfold post_reveal.
    destruct (negb (truthy tok) || is_undefined bid || negb (truthy sec));
      [discriminate |].
    destruct (negb (validateBid bid)); [discriminate |].
    destruct (getAuctionBySeatToken st id _) as [[a0 s0] |] eqn:R;
      [| discriminate].
    pose proof (resolved_row _ _ _ _ _ R). simplify_eq.
    rewrite G. discriminate.
  - intros tok bid sec s Ht Hs V R. unfold post_reveal.
    rewrite (truthy_nonempty tok Ht), (truthy_nonempty sec Hs).
    rewrite (validated_defined bid V), V.
    change (default "" (Some tok)) with tok. cbn [negb orb].
    now rewrite R, G.
Qed.

Lemma reveal_needs_both_commits_witness :
  post_reveal st_a id (Some tokenA) (JNumber (Js.of_int 150)) (Some "peanut")
  = (Failure PreconditionFailed, st_a).
Proof.
  apply (proj2 (reveal_needs_both_commits st_a id row_a
                  ltac:(vm_compute; reflexivity) ltac:(reflexivity))
           tokenA (JNumber (Js.of_int 150)) "peanut" A);
    [discriminate | discriminate | vm_compute; reflexivity
    | vm_compute; reflexivity].
Defined.

Lemma phase_rank_derived a :
  phase_rank (derived_phase a)
  = if not_null (bid_a a) && not_null (bid_b a) then 2
    else if truthy (commit_a a) && truthy (commit_b a) then 1 else 0.
Proof.
  unfold derived_phase.
  destruct (not_null (bid_a a) && not_null (bid_b a)); [reflexivity |].
  destruct (truthy (commit_a a) && truthy (commit_b a)); reflexivity.
Qed.

Lemma phase_rank_open id a s :
  sound_row id a -> truthy (commit_of s a) = false ->
  phase_rank (derived_phase a) = 0.
Proof.
  intros I T. rewrite phase_rank_derived.
  rewrite (no_bid_without_commits id a s A I T : bid_a a = None).
  destruct s; cbn in T; rewrite T; cbn [not_null andb];
    rewrite ?andb_false_r; reflexivity.
Qed.

Lemma phase_rank_nonneg a : 0 <= phase_rank (derived_phase a).
Proof.
  rewrite phase_rank_derived.
  destruct (_ && _); [lia |]. destruct (_ && _); lia.
Qed.

Lemma rank_zero_not_revealed a :
  phase_rank (derived_phase a) = 0 -> derived_phase a <> "revealed".
Proof. intros H E. rewrite E in H. discriminate H. Qed.

Lemma row_change_phase id a a' :
  sound_row id a -> row_change id a a' ->
  phase_rank (derived_phase a) <= phase_rank (derived_phase a')
  /\ derived_phase a <> "revealed".
Proof.
  intros I C.
  destruct C as [s c T F | s T | s bid sec V Ta Tb Hb Hc].
  - pose proof (phase_rank_open id a s I T) as Z0.
    pose proof (phase_rank_nonneg (with_commit s (Some c) a)).
    split; [lia | now apply rank_zero_not_revealed].
  - pose proof (phase_rank_open id a (other s) I T) as Z0.
    pose proof (phase_rank_nonneg (with_commit s None a)).
    split; [lia | now apply rank_zero_not_revealed].
  - rewrite !phase_rank_derived. unfold derived_phase.
    destruct s; cbn in *; rewrite ?Hb, ?Ta, ?Tb; cbn [not_null andb];
      rewrite ?andb_false_r; (split; [| discriminate]);
      destruct (not_null _); cbn; lia.
Qed.

Lemma reachable_step st r : reachable st -> reachable (step st r).
Proof. intros [rs ->]. exists (rs ++ [r])%list. now rewrite run_snoc. Qed.

Lemma step_phase (st : store) r id a :
  consistent st -> st !! id = Some a ->
  exists a', step st r !! id = Some a'
    /\ phase_rank (derived_phase a) <= phase_rank (derived_phase a')
    /\ (derived_phase a = "revealed" -> a' = a).
Proof.
  intros I L. destruct (step_effect st r) as [| b b' Lb C | b Lb _ _ _].
  - exists a. split; [exact L |]. split; [lia | reflexivity].
  - rewrite lookup_insert. destruct (decide (target r = id)) as [E |].
    + subst id. simplify_eq.
      destruct (row_change_phase _ a b' (I _ a L) C) as [H1 H2].
      exists b'. split; [reflexivity |]. split; [exact H1 | congruence].
    + exists a. split; [exact L |]. split; [lia | reflexivity].
  - rewrite lookup_insert. destruct (decide (target r = id)) as [E |].
    + rewrite E in Lb. congruence.
    + exists a. split; [exact L |]. split; [lia | reflexivity].
Qed.

(** X7. The phase of an auction only moves forward: in a store the
    operations can reach, after any further requests the auction is in
    the same phase or a later one in the order commit, reveal, revealed;
    and once it is revealed the row is final: no request changes any of
    its fields. *)
Theorem phase_only_moves_forward (rs : list request) :
  forall (st : store) id a,
    reachable st -> st !! id = Some a ->
    exists a', run st rs !! id = Some a'
      /\ phase_rank (derived_phase a) <= phase_rank (derived_phase a')
      /\ (derived_phase a = "revealed" -> a' = a).
Proof.
  induction rs as [| r rs IH]; intros st id a R L.
  - exists a. split; [exact L |]. split; [lia | reflexivity].
  - change (run st (r :: rs)) with (run (step st r) rs).
    destruct (step_phase st r id a (reachable_consistent st R) L)
      as (a1 & L1 & P1 & F1).
    destruct (IH _ _ _ (reachable_step st r R) L1) as (a2 & L2 & P2 & F2).
    exists a2. split; [exact L2 |]. split; [lia |].
    intros E. pose proof (F1 E) as ->. exact (F2 E).
Qed.

Lemma phase_only_moves_forward_witness :
  exists a',
    run st_revealed
      [ResetCommit id (Some tokenB); Commit id (Some tokenB) (Some digestA);
       Reveal id (Some tokenB) (JString "1.00") (Some "walnut")] !! id
    = Some a'
    /\ phase_rank (derived_phase row_revealed) <= phase_rank (derived_phase a')
    /\ (derived_phase row_revealed = "revealed" -> a' = row_revealed).
Proof.
  apply (phase_only_moves_forward _ st_revealed id row_revealed
           (reachable_run _)).
  vm_compute. reflexivity.
Defined.

(** X8. GetStatus and GetResult agree: the bids are disclosed by GetResult
    exactly when GetStatus reports the phase revealed (and then its
    revealed flag is set); GetResult answers revealed:false exactly in the
    other phases; and the two fail with NotFound on the same ids. *)
Theorem result_disclosed_iff_phase_revealed (st : store) id tok :
  ((exists r, get_result st id = Success (Revealed r))
   <-> (exists s, get_status st id tok = Success s /\ phase s = "revealed"))
  /\ (get_result st id = Success NotRevealed
      <-> (exists s, get_status st id tok = Success s
                     /\ phase s <> "revealed"))
  /\ ((exists f, get_result st id = Failure f)
      <-> (exists f, get_status st id tok = Failure f))
  /\ (forall s, get_status st id tok = Success s ->
        (status_revealed s = Some true <-> phase s = "revealed")).
Proof.
  unfold get_result, get_status, getAuctionById.
  destruct (st !! id) as [a |].
  2:{ split; [| split; [| split]].
      - split; [intros (r & H) | intros (s & H & _)]; discriminate.
      - split; [| intros (s & H & _)]; discriminate.
      - split; intros _; eexists; reflexivity.
      - discriminate. }
  destruct (bid_a a) as [x |], (bid_b a) as [y |]; cbn [not_null andb].
  - split; [| split; [| split]].
    + split; [intros _; eexists; split; reflexivity |].
      intros _. destruct (Js.gt x y); [| destruct (Js.gt y x)];
        eexists; reflexivity.
    + split.
      * destruct (Js.gt x y); [| destruct (Js.gt y x)]; discriminate.
      * intros (s & [= <-] & N). now contradiction N.
    + split; intros (f & H); [| discriminate].
      destruct (Js.gt x y); [| destruct (Js.gt y x)]; discriminate.
    + intros s [= <-]. split; reflexivity.
  - split; [| split; [| split]].
    + split; [intros (r & H); discriminate |].
      intros (s & [= <-] & E). cbn in E.
      destruct (truthy (commit_a a) && truthy (commit_b a)); discriminate.
    + split; [| reflexivity]. intros _. eexists. split; [reflexivity |].
      cbn. destruct (truthy (commit_a a) && truthy (commit_b a)); discriminate.
    + split; intros (f & H); discriminate.
    + intros s [= <-]. cbn.
      destruct (truthy (commit_a a) && truthy (commit_b a));
        split; discriminate.
  - split; [| split; [| split]].
    + split; [intros (r & H); discriminate |].
      intros (s & [= <-] & E). cbn in E.
      destruct (truthy (commit_a a) && truthy (commit_b a)); discriminate.
    + split; [| reflexivity]. intros _. eexists. split; [reflexivity |].
      cbn. destruct (truthy (commit_a a) && truthy (commit_b a)); discriminate.
    + split; intros (f & H); discriminate.
    + intros s [= <-]. cbn.
      destruct (truthy (commit_a a) && truthy (commit_b a));
        split; discriminate.
  - split; [| split; [| split]].
    + split; [intros (r & H); discriminate |].
      intros (s & [= <-] & E). cbn in E.
      destruct (truthy (commit_a a) && truthy (commit_b a)); discriminate.
    + split; [| reflexivity]. intros _. eexists. split; [reflexivity |].
      cbn. destruct (truthy (commit_a a) && truthy (commit_b a)); discriminate.
    + split; intros (f & H); discriminate.
    + intros s [= <-]. cbn.
      destruct (truthy (commit_a a) && truthy (commit_b a));
        split; discriminate.
Qed.

Lemma result_disclosed_iff_phase_revealed_witness :
  exists s, get_status st_revealed id None = Success s
            /\ phase s = "revealed".
Proof.
  apply (proj1 (proj1 (result_disclosed_iff_phase_revealed st_revealed id
                         None))).
  eexists. vm_compute. reflexivity.
Defined.

(** X9. GetStatus names a seat exactly as the other endpoints resolve it:
    for a token that is present, the status carries mySeat A (or B) if and
    only if Commit, ResetCommit and Reveal would act for seat A (or B) of
    that auction with this token. *)
Theorem status_seat_agrees_with_resolution (st : store) id tok s :
  tok <> "" ->
  ((exists r, get_status st id (Some tok) = Success r /\ mySeat r = Some s)
   <-> (exists a, getAuctionBySeatToken st id tok = Some (a, s))).
Proof.
  intros Ht. unfold get_status, getAuctionBySeatToken, getAuctionById.
  destruct (st !! id) as [a |].
  2:{ split; [intros (r & H & _) | intros (a & H)]; discriminate. }
  destruct tok as [| c t]; [congruence |].
  destruct (String.eqb (seat_a_token a) (String c t));
    destruct (String.eqb (seat_b_token a) (String c t)); cbn [orb]; split.
  all: try (intros (r & [= <-] & E); cbn in E; simplify_eq; eauto).
  all: try (intros (b & [= <- <-]); eexists; split; reflexivity).
  all: try (intros (b & H); discriminate).
Qed.

Lemma status_seat_agrees_with_resolution_witness :
  exists a, getAuctionBySeatToken st_ab id tokenB = Some (a, B).
Proof.
  apply (proj1 (status_seat_agrees_with_resolution st_ab id tokenB B
                  ltac:(discriminate))).
  eexists. vm_compute. split; reflexivity.
Defined.

(** X10. A wrong token is answered like an unknown auction: a seat token
    fails to resolve exactly when the auction id is unknown or the token
    is neither of the auction's two; in both cases Commit, ResetCommit and
    Reveal give one and the same NotFound response and leave the table
    unchanged, so the answer does not tell which of the two was wrong. *)
Theorem unresolved_requests_are_alike (st : store) id tok :
  tok <> "" ->
  (getAuctionBySeatToken st id tok = None
   <-> (st !! id = None
        \/ exists a, st !! id = Some a
                     /\ seat_a_token a <> tok /\ seat_b_token a <> tok))
  /\ (getAuctionBySeatToken st id tok = None ->
      let answer := Failure (NotFound "Auction not found or invalid token") in
      (forall c, commit_format c = true ->
                 post_commit st id (Some tok) (Some c) = (answer, st))
      /\ post_reset_commit st id (Some tok) = (answer, st)
      /\ (forall bid sec, validateBid bid = true -> sec <> "" ->
            post_reveal st id (Some tok) bid (Some sec) = (answer, st))).
Proof.
  intros Ht. split.
  - unfold getAuctionBySeatToken. destruct (st !! id) as [a |].
    + destruct (String.eqb_spec (seat_a_token a) tok);
        destruct (String.eqb_spec (seat_b_token a) tok); cbn [orb]; split;
        try discriminate; try (intros _; right; eauto; fail);
        try (intros [H | (b & [= <-] & Ha & Hb)]; congruence).
    + split; [intros _; now left | reflexivity].
  - intros R answer. split; [| split].
    + intros c F. unfold post_commit.
      rewrite (truthy_nonempty tok Ht), (commit_format_truthy c F).
      change (default "" (Some tok)) with tok.
      change (default "" (Some c)) with c. cbn [negb orb].
      now rewrite F, R.
    + unfold post_reset_commit. rewrite (truthy_nonempty tok Ht).
      change (default "" (Some tok)) with tok. cbn [negb]. now rewrite R.
    + intros bid sec V Hs. unfold post_reveal.
      rewrite (truthy_nonempty tok Ht), (truthy_nonempty sec Hs).
      rewrite (validated_defined bid V), V.
      change (default "" (Some tok)) with tok. cbn [negb orb]. now rewrite R.
Qed.

Lemma unresolved_requests_are_alike_witness :
  post_reset_commit st_ab id (Some "tA-of-another-auction")
  = (Failure (NotFound "Auction not found or invalid token"), st_ab).
Proof.
  destruct (unresolved_requests_are_alike st_ab id "tA-of-another-auction"
              ltac:(discriminate)) as [_ H].
  destruct H as (_ & H & _); [vm_compute; reflexivity | exact H].
Defined.

(** X11. Create opens a fresh auction and never overwrites one. For a
    title that passes the checks: when the drawn id is unused and the
    drawn tokens are not in their columns, the call succeeds, adds one
    row with the trimmed title, no commit, no bid and no secret, and
    answers with the two seat links; the new auction reports phase commit
    and revealed:false, its first token resolves to seat A and a
    different second token to seat B. When the id or a token is already
    there the call fails with Internal and the table is unchanged. *)
Theorem create_opens_fresh_auction
    (st : store) base id a b now t d u d' u' :
  t <> "" -> Js.js_length (Js.trim t) <> 0 -> Js.js_length t <= 200 ->
  optional_trim d = Some d' -> optional_trim u = Some u' ->
  let row := Auction (Js.trim t) (or_null d') (or_null u') a b
                     None None None None None None now in
  let st' := <[id := row]> st in
  let call := post_auction st base id a b now (JString t) d u in
  (st !! id = None -> taken seat_a_token a st = false ->
   taken seat_b_token b st = false ->
   call = (Success (Links id (base +:+ "/a/" +:+ id +:+ "/" +:+ a)
                          (base +:+ "/a/" +:+ id +:+ "/" +:+ b)), st')
   /\ getAuctionBySeatToken st' id a = Some (row, A)
   /\ (b <> a -> getAuctionBySeatToken st' id b = Some (row, B))
   /\ get_status st' id None
      = Success (Status "commit" false false false false (Js.trim t)
                        (or_null d') (or_null u') None None)
   /\ get_result st' id = Success NotRevealed)
  /\ (st !! id <> None \/ taken seat_a_token a st = true
       \/ taken seat_b_token b st = true ->
      call = (Failure Internal, st)).
Proof.
  intros Ht Hb Hl Hd Hu row st' call. subst call. unfold post_auction.
  replace (Js.is_empty t) with false by now destruct t.
  replace (Js.js_length (Js.trim t) =? 0) with false
    by (symmetry; now apply Z.eqb_neq).
  replace (200 <? Js.js_length t) with false
    by (symmetry; apply Z.ltb_ge; lia).
  cbn [orb]. rewrite Hd, Hu. unfold createAuction. split.
  - intros L Ta Tb. rewrite L, Ta, Tb. cbn [orb]. fold row. fold st'.
    split; [reflexivity |].
    unfold getAuctionBySeatToken, get_status, get_result, getAuctionById.
    subst st'. rewrite !lookup_insert_eq. cbn [seat_a_token seat_b_token row].
    rewrite String.eqb_refl. cbn [orb].
    split; [reflexivity |]. split; [| split; reflexivity].
    intros N. rewrite String.eqb_refl, orb_true_r.
    destruct (String.eqb_spec a b); [congruence | reflexivity].
  - intros [L | [T | T]].
    + destruct (st !! id); [reflexivity | congruence].
    + destruct (st !! id); [reflexivity |]. now rewrite T.
    + destruct (st !! id); [reflexivity |]. rewrite T, orb_true_r. reflexivity.
Qed.

Lemma create_opens_fresh_auction_witness :
  post_auction st_open "http://localhost:3000" id "x" "y" 5
    (JString "Sofa again") JNull JNull
  = (Failure Internal, st_open).
Proof.
  apply (proj2 (create_opens_fresh_auction st_open "http://localhost:3000" id
                  "x" "y" 5 "Sofa again" JNull JNull None None
                  ltac:(discriminate) ltac:(vm_compute; discriminate)
                  ltac:(vm_compute; discriminate) eq_refl eq_refl)).
  left. vm_compute. discriminate.
Defined.






(** X13. What a stored bid stands on: in every store the operations can
    reach, a seat with a bid also has its secret stored and both seats
    have a commit; every stored commit is 64 lowercase hexadecimal
    characters; and the stored bid prints with two decimals as an amount
    between 0.00 and 100000.00. *)
Theorem stored_bid_stands_on_commits (st : store) id a :
  reachable st -> st !! id = Some a ->
  (forall s c, commit_of s a = Some c -> commit_format c = true)
  /\ (forall s y, bid_of s a = Some y ->
        (exists ca cb sec,
           commit_a a = Some ca /\ commit_b a = Some cb
           /\ secret_of s a = Some sec)
        /\ exists n, 0 <= n <= 10000000 /\ Js.to_fixed2 y = Js.fixed2 n).
Proof.
  intros R L. destruct (reachable_consistent st R id a L) as (I1 & I2 & I3 & I4).
  split; [exact I3 |]. intros s y E. split; [| exact (I4 s y E)].
  destruct (I1 s) as [Ta Tb]; [now rewrite E |].
  destruct (I2 s y E) as (sec & Hs & _).
  apply truthy_Some in Ta as (ca & Ha & _).
  apply truthy_Some in Tb as (cb & Hb & _). eauto 6.
Qed.

Lemma stored_bid_stands_on_commits_witness :
  commit_format digestB = true
  /\ exists n, 0 <= n <= 10000000 /\ Js.to_fixed2 (Js.of_int 150) = Js.fixed2 n.
Proof.
  assert (L : st_revealed_a !! id = Some row_revealed_a)
    by (vm_compute; reflexivity).
  destruct (stored_bid_stands_on_commits st_revealed_a id row_revealed_a
              (reachable_run _) L) as [H1 H2].
  split.
  - apply (H1 B). reflexivity.
  - destruct (H2 A (Js.of_int 150) eq_refl) as [_ H]. exact H.
Defined.

Example base64url_samples :
  base64url [200; 201; 202; 203; 204; 205; 206; 207; 208; 209; 210; 211;
             212; 213; 214; 215; 216; 217; 218; 219; 220; 221; 222; 223]
  = "yMnKy8zNzs_Q0dLT1NXW19jZ2tvc3d7f"
  /\ base64url [251; 255; 190; 0; 1] = "-_--AAE"
  /\ base64url [255] = "_w".
Proof. repeat apply conj; vm_compute; reflexivity. Qed.

Lemma sextet_char_safe i : url_safe (sextet_char i) = true.
Proof.
  unfold sextet_char. destruct (Z.to_nat i) as [| n]; [reflexivity |].
  do 64 (destruct n as [| n]; [reflexivity |]). reflexivity.
Qed.

Lemma sextet_index_char i : 0 <= i < 64 -> sextet_index (sextet_char i) = i.
Proof.
  intros H. rewrite <- (Z2Nat.id i) at 2 by lia.
  assert (Hn : (Z.to_nat i < 64)%nat) by lia.
  unfold sextet_char. destruct (Z.to_nat i) as [| n]; [reflexivity |].
  do 63 (destruct n as [| n]; [reflexivity |]). lia.
Qed.

Lemma sextet_char_inj i j :
  0 <= i < 64 -> 0 <= j < 64 -> sextet_char i = sextet_char j -> i = j.
Proof.
  intros Hi Hj E. apply (f_equal sextet_index) in E.
  now rewrite !sextet_index_char in E.
Qed.

Lemma url_safe_no_bar s : all_chars url_safe s = true -> no_bar s = true.
Proof.
  unfold no_bar. induction s as [| c s IH]; [reflexivity |].
  cbn [all_chars]. intros H. apply andb_prop in H as [Hc Hs].
  rewrite (IH Hs), andb_true_r.
  destruct (Ascii.eqb_spec c bar) as [-> |]; [discriminate Hc | reflexivity].
Qed.

Lemma base64url_shape k : forall bs,
  List.length bs = (3 * k)%nat ->
  String.length (base64url bs) = (4 * k)%nat
  /\ all_chars url_safe (base64url bs) = true.
Proof.
  induction k as [| k IH]; intros bs H.
  - destruct bs; [split; reflexivity | discriminate].
  - destruct bs as [| a [| b [| c rest]]]; try (cbn in H; lia).
    destruct (IH rest) as [H1 H2]; [cbn in H; lia |].
    cbn [base64url String.length all_chars].
    rewrite H1, H2, !sextet_char_safe. split; [lia | reflexivity].
Qed.

Lemma base64url_inj k : forall bs bs',
  List.length bs = (3 * k)%nat -> List.length bs' = (3 * k)%nat ->
  Forall is_byte bs -> Forall is_byte bs' ->
  base64url bs = base64url bs' -> bs = bs'.
Proof.
  induction k as [| k IH]; intros bs bs' L L' B B' E.
  - destruct bs, bs'; (reflexivity || discriminate).
  - destruct bs as [| a [| b [| c rest]]]; try (cbn in L; lia).
    destruct bs' as [| a' [| b' [| c' rest']]]; try (cbn in L'; lia).
    cbn [base64url] in E. injection E as E1 E2 E3 E4 E5.
    inversion B as [| ? ? Ba B1]; subst. inversion B1 as [| ? ? Bb B2]; subst.
    inversion B2 as [| ? ? Bc B3]; subst.
    inversion B' as [| ? ? Ba' B1']; subst.
    inversion B1' as [| ? ? Bb' B2']; subst.
    inversion B2' as [| ? ? Bc' B3']; subst.
    unfold is_byte in *.
    rewrite (IH rest rest'); try assumption; try (cbn in L, L'; lia).
    apply sextet_char_inj in E1, E2, E3, E4;
      try (split; [Z.div_mod_to_equations; lia
                  | Z.div_mod_to_equations; lia]).
    assert (a = a' /\ b = b' /\ c = c') as (-> & -> & ->)
      by (Z.div_mod_to_equations; lia).
    reflexivity.
Qed.

(** X14. Ids and seat tokens: from [n] random bytes, [generateToken] gives
    32 and [generateAuctionId] 16 characters, all of them letters, digits,
    hyphen or underscore (so never empty and without the bar that
    separates the parts of the commitment payload), and different draws
    give different strings: a token carries all 192 bits of its draw, an
    id all 96. *)
Theorem generated_tokens_carry_their_entropy (rb rb' : nat -> list Z) :
  is_draw rb -> is_draw rb' ->
  (String.length (generateToken rb) = 32%nat
   /\ all_chars url_safe (generateToken rb) = true
   /\ no_bar (generateToken rb) = true
   /\ truthy (Some (generateToken rb)) = true)
  /\ (String.length (generateAuctionId rb) = 16%nat
      /\ all_chars url_safe (generateAuctionId rb) = true
      /\ no_bar (generateAuctionId rb) = true)
  /\ (generateToken rb = generateToken rb' -> rb 24%nat = rb' 24%nat)
  /\ (generateAuctionId rb = generateAuctionId rb' ->
      rb 12%nat = rb' 12%nat).
Proof.
  intros D D'. unfold generateToken, generateAuctionId.
  destruct (D 24%nat) as [L24 B24], (D 12%nat) as [L12 B12].
  destruct (D' 24%nat) as [L24' B24'], (D' 12%nat) as [L12' B12'].
  destruct (base64url_shape 8 (rb 24%nat) L24) as [S1 S2].
  destruct (base64url_shape 4 (rb 12%nat) L12) as [S3 S4].
  split; [| split; [| split]].
  - split; [exact S1 |]. split; [exact S2 |].
    split; [now apply url_safe_no_bar |].
    destruct (base64url (rb 24%nat)); [discriminate S1 | reflexivity].
  - split; [exact S3 |]. split; [exact S4 | now apply url_safe_no_bar].
  - now apply (base64url_inj 8).
  - now apply (base64url_inj 4).
Qed.

Lemma repeat_is_draw b : is_byte b -> is_draw (repeat b).
Proof.
  intros H n. split; [apply repeat_length |].
  induction n as [| n IH]; constructor; assumption.
Qed.

Lemma generated_tokens_carry_their_entropy_witness :
  String.length (generateToken (repeat 7)) = 32%nat.
Proof.
  apply (generated_tokens_carry_their_entropy (repeat 7) (repeat 9)
           (repeat_is_draw 7 ltac:(unfold is_byte; lia))
           (repeat_is_draw 9 ltac:(unfold is_byte; lia))).
Defined.

(** X15. A created auction has its two seats exactly when the two token
    draws differ: [createAuction], when it inserts, stores the id and
    tokens made from its three draws; the first token always resolves to
    seat A; the second resolves to seat B if the draws for the two tokens
    differ, and if they are equal every token of the auction resolves to
    seat A, so seat B cannot act. *)
Theorem drawn_auction_seats
    (idBytes aBytes bBytes : nat -> list Z) now t d u
    (st st' : store) id ta tb :
  is_draw aBytes -> is_draw bBytes ->
  createAuction_drawing idBytes aBytes bBytes now t d u st
  = Some (id, ta, tb, st') ->
  id = generateAuctionId idBytes /\ ta = generateToken aBytes
  /\ tb = generateToken bBytes /\ st !! id = None
  /\ exists row,
      st' = <[id := row]> st
      /\ getAuctionBySeatToken st' id ta = Some (row, A)
      /\ (aBytes 24%nat <> bBytes 24%nat ->
          ta <> tb /\ getAuctionBySeatToken st' id tb = Some (row, B))
      /\ (aBytes 24%nat = bBytes 24%nat ->
          forall tok s,
            getAuctionBySeatToken st' id tok = Some (row, s) -> s = A).
Proof.
  intros Da Db. unfold createAuction_drawing, createAuction.
  destruct (st !! generateAuctionId idBytes) eqn:L; [discriminate |].
  destruct (taken _ _ _ || taken _ _ _); [discriminate |].
  intros [= <- <- <- <-]. repeat (split; [reflexivity || exact L |]).
  eexists. split; [reflexivity |].
  unfold getAuctionBySeatToken. rewrite !lookup_insert_eq.
  cbn [seat_a_token seat_b_token]. rewrite String.eqb_refl. cbn [orb].
  split; [reflexivity |]. split.
  - intros N.
    assert (N' : generateToken aBytes <> generateToken bBytes).
    { intros E. apply N. unfold generateToken in E.
      destruct (Da 24%nat), (Db 24%nat). now apply (base64url_inj 8). }
    split; [exact N' |]. rewrite String.eqb_refl, orb_true_r.
    destruct (String.eqb_spec (generateToken aBytes) (generateToken bBytes));
      [congruence | reflexivity].
  - intros E tok s. unfold generateToken. rewrite <- E.
    destruct (String.eqb (base64url (aBytes 24%nat)) tok); cbn [orb];
      [congruence | discriminate].
Qed.

Lemma drawn_auction_seats_witness :
  exists row,
    getAuctionBySeatToken
      (<[generateAuctionId (repeat 1) :=
           Auction "Desk" None None (generateToken (repeat 2))
             (generateToken (repeat 3)) None None None None None None 0]>
         (∅ : store))
      (generateAuctionId (repeat 1)) (generateToken (repeat 3))
    = Some (row, B).
Proof.
  assert (C : createAuction_drawing (repeat 1) (repeat 2) (repeat 3) 0 "Desk"
                None None (∅ : store)
              = Some (generateAuctionId (repeat 1), generateToken (repeat 2),
                      generateToken (repeat 3),
                      <[generateAuctionId (repeat 1) :=
                          Auction "Desk" None None (generateToken (repeat 2))
                            (generateToken (repeat 3)) None None None None
                            None None 0]> (∅ : store)))
    by (vm_compute; reflexivity).
  destruct (drawn_auction_seats _ _ _ _ _ _ _ _ _ _ _ _
              (repeat_is_draw 2 ltac:(unfold is_byte; lia))
              (repeat_is_draw 3 ltac:(unfold is_byte; lia)) C)
    as (_ & _ & _ & _ & row & _ & _ & H & _).
  exists row. destruct H as [_ H]; [vm_compute; discriminate | exact H].
Defined.

Lemma append_assoc x y z : (x +:+ y) +:+ z = x +:+ (y +:+ z).
Proof.
  induction x as [| c x IH]; [reflexivity |].
  rewrite !append_cons. now rewrite IH.
Qed.

Lemma no_bar_cons c s :
  no_bar (String c s) = negb (Ascii.eqb c bar) && no_bar s.
Proof. reflexivity. Qed.

Lemma has_bar x y : no_bar (x +:+ String bar y) = false.
Proof.
  induction x as [| c x IH]; [reflexivity |].
  rewrite append_cons, no_bar_cons, IH. apply andb_false_r.
Qed.

Lemma split_first_bar b : forall b' r r',
  no_bar b = true -> no_bar b' = true ->
  b +:+ String bar r = b' +:+ String bar r' -> b = b' /\ r = r'.
Proof.
  induction b as [| c b IH]; intros [| c' b'] r r' N N' E.
  - rewrite !append_nil in E. now injection E.
  - rewrite append_nil, append_cons in E. injection E as <- _.
    rewrite no_bar_cons in N'. discriminate N'.
  - rewrite append_nil, append_cons in E. injection E as -> _.
    rewrite no_bar_cons in N. discriminate N.
  - rewrite !append_cons in E. injection E as <- E.
    rewrite no_bar_cons in N, N'.
    apply andb_prop in N as [_ N]. apply andb_prop in N' as [_ N'].
    destruct (IH _ _ _ N N' E) as [-> ->]. split; reflexivity.
Qed.

Lemma split_last_bar s : forall s' u u',
  no_bar u = true -> no_bar u' = true ->
  s +:+ String bar u = s' +:+ String bar u' -> s = s' /\ u = u'.
Proof.
  induction s as [| c s IH]; intros [| c' s'] u u' N N' E.
  - rewrite !append_nil in E. now injection E.
  - rewrite append_nil, append_cons in E. injection E as _ E.
    rewrite E, has_bar in N. discriminate N.
  - rewrite append_nil, append_cons in E. injection E as _ E.
    rewrite <- E, has_bar in N'. discriminate N'.
  - rewrite !append_cons in E. injection E as <- E.
    destruct (IH _ _ _ N N' E) as [-> ->]. split; reflexivity.
Qed.

Lemma payload_shape b s i t :
  reveal_payload b s i t
  = b +:+ String bar ((s +:+ String bar i) +:+ String bar (seat_label t)).
Proof.
  unfold reveal_payload. f_equal.
  change ("|" +:+ s +:+ "|" +:+ i +:+ "|" +:+ seat_label t)
    with (String bar (s +:+ String bar (i +:+ String bar (seat_label t)))).
  f_equal. rewrite append_assoc. reflexivity.
Qed.

Lemma digits_no_bar ds :
  Forall Js.is_digit ds ->
  no_bar (string_of_list_ascii (map Js.digit_char ds)) = true.
Proof.
  induction 1 as [| d ds Hd _ IH]; [reflexivity |].
  cbn [map string_of_list_ascii]. rewrite no_bar_cons, IH, andb_true_r.
  pose proof (digit_of_char d Hd) as H. apply digit_of_range in H.
  destruct (Ascii.eqb_spec (Js.digit_char d) bar) as [E |]; [| reflexivity].
  rewrite E in H. change (Js.code bar) with 124 in H. lia.
Qed.

Lemma no_bar_append x y :
  no_bar x = true -> no_bar y = true -> no_bar (x +:+ y) = true.
Proof.
  intros Hx Hy. induction x as [| c x IH]; [exact Hy |].
  rewrite append_cons, no_bar_cons. rewrite no_bar_cons in Hx.
  apply andb_prop in Hx as [-> Hx]. now rewrite IH.
Qed.

Lemma fixed2_no_bar n : 0 <= n -> no_bar (Js.fixed2 n) = true.
Proof.
  intros Hn. unfold Js.fixed2.
  destruct (dec_string_spec (n / 100)) as (ip & _ & Hip & -> & _);
    [apply Z.div_pos; lia |].
  apply no_bar_append; [now apply digits_no_bar |].
  change ("." +:+ String (Js.digit_char (n / 10 mod 10))
                    (String (Js.digit_char (n mod 10)) ""))
    with (String "." (string_of_list_ascii
                        (map Js.digit_char [n / 10 mod 10; n mod 10]))).
  rewrite no_bar_cons. apply digits_no_bar.
  pose proof (Z.mod_pos_bound (n / 10) 10).
  pose proof (Z.mod_pos_bound n 10).
  repeat constructor; lia.
Qed.

(** X16. The commitment payload binds its four parts together when the
    auction id has no bar: if two payloads are equal and the bid texts and
    ids are free of the separator, then bid text, secret, id and seat are
    all equal, whatever bars the secrets contain. The canonical text of
    every accepted bid is free of bars, as are generated ids. With a bar
    in the id the parts can be cut differently: the secret alone does not
    protect itself. *)
Theorem payload_binds_all_parts :
  (forall b b' s s' i i' t t',
      no_bar b = true -> no_bar b' = true ->
      no_bar i = true -> no_bar i' = true ->
      reveal_payload b s i t = reveal_payload b' s' i' t' ->
      b = b' /\ s = s' /\ i = i' /\ t = t')
  /\ (forall bid, validateBid bid = true ->
        no_bar (Js.to_fixed2 (parseFloat bid)) = true)
  /\ reveal_payload "1.00" "a|b" "c" A = reveal_payload "1.00" "a" "b|c" A.
Proof.
  split; [| split; [| reflexivity]].
  - intros b b' s s' i i' t t' Nb Nb' Ni Ni' E.
    rewrite !payload_shape in E.
    apply split_first_bar in E as [-> E]; [| assumption ..].
    apply split_last_bar in E as [E Et];
      [| now destruct t | now destruct t'].
    apply split_last_bar in E as [-> ->]; [| assumption ..].
    repeat split. destruct t, t'; (reflexivity || discriminate).
  - intros bid V. destruct (validated_amount bid V) as (n & Hn & ->).
    apply fixed2_no_bar. lia.
Qed.

Lemma payload_binds_all_parts_witness :
  no_bar (Js.to_fixed2 (parseFloat (JString "200.00"))) = true.
Proof.
  apply (proj1 (proj2 payload_binds_all_parts) (JString "200.00")).
  vm_compute. reflexivity.
Defined.

Lemma amount_value n :
  0 <= n <= 10000000 ->
  (n = 0 /\ amount n = S754_zero false)
  \/ (1 <= n
      /\ exists M e, amount n = S754_finite false M e /\ -60 <= e <= -7
           /\ 2 * Z.abs (100 * Z.pos M - n * 2 ^ (- e)) <= 100).
Proof.
  intros Hn. unfold amount. rewrite parse_fixed2 by lia. unfold Js.of_decimal.
  destruct (n =? 0) eqn:Hz.
  - apply Z.eqb_eq in Hz. left. split; [exact Hz | reflexivity].
  - apply Z.eqb_neq in Hz. right. split; [lia |].
    change (-2 <? 0) with true. change (10 ^ (- -2)) with 100. cbv iota.
    apply round_ratio_hundredths. change (2 ^ 24) with 16777216. lia.
Qed.

Lemma amount_prints n :
  0 <= n <= 10000000 -> Js.to_fixed2 (amount n) = Js.fixed2 n.
Proof.
  intros Hn. apply to_fixed2_parse_fixed2. change (2 ^ 24) with 16777216. lia.
Qed.

Lemma compare_amounts_lt M e n M' e' m :
  -60 <= e <= -7 -> -60 <= e' <= -7 ->
  2 * Z.abs (100 * Z.pos M - n * 2 ^ (- e)) <= 100 ->
  2 * Z.abs (100 * Z.pos M' - m * 2 ^ (- e')) <= 100 ->
  n < m ->
  Z.pos M * 2 ^ (e - Z.min e e') < Z.pos M' * 2 ^ (e' - Z.min e e').
Proof.
  intros He He' H1 H2 Lt.
  set (emin := Z.min e e').
  assert (Hmin : emin <= e /\ emin <= e' /\ -60 <= emin) by (subst emin; lia).
  assert (EA : 2 ^ (- emin) = 2 ^ (e - emin) * 2 ^ (- e))
    by (rewrite <- pow2_split by lia; f_equal; lia).
  assert (EA' : 2 ^ (- emin) = 2 ^ (e' - emin) * 2 ^ (- e'))
    by (rewrite <- pow2_split by lia; f_equal; lia).
  assert (HP : 2 ^ 7 <= 2 ^ (- e)) by (apply Z.pow_le_mono_r; lia).
  assert (HP' : 2 ^ 7 <= 2 ^ (- e')) by (apply Z.pow_le_mono_r; lia).
  change (2 ^ 7) with 128 in HP, HP'.
  assert (HA : 0 < 2 ^ (e - emin)) by (apply Z.pow_pos_nonneg; lia).
  assert (HA' : 0 < 2 ^ (e' - emin)) by (apply Z.pow_pos_nonneg; lia).
  set (A := 2 ^ (e - emin)) in *. set (A' := 2 ^ (e' - emin)) in *.
  set (P := 2 ^ (- e)) in *. set (P' := 2 ^ (- e')) in *.
  set (T := 2 ^ (- emin)) in *.
  set (X := Z.pos M) in *. set (Y := Z.pos M') in *.
  assert (B1 : 100 * (X * A) <= n * T + 50 * A) by nia.
  assert (B2 : m * T - 50 * A' <= 100 * (Y * A')) by nia.
  assert (B3 : 128 * A <= T) by nia.
  assert (B4 : 128 * A' <= T) by nia.
  assert (B5 : n * T + T <= m * T) by nia.
  lia.
Qed.

Lemma compare_amounts n m :
  0 <= n <= 10000000 -> 0 <= m <= 10000000 ->
  Js.compare (amount n) (amount m) = Some (n ?= m).
Proof.
  intros Hn Hm.
  destruct (Z.eq_dec n m) as [<- | N].
  { rewrite Z.compare_refl.
    destruct (amount_value n Hn) as [[_ ->] | (_ & M & e & -> & _)];
      cbn [Js.compare]; now rewrite Z.compare_refl. }
  destruct (amount_value n Hn) as [[-> ->] | (Pn & M & e & -> & He & H1)];
    destruct (amount_value m Hm) as [[-> ->] | (Pm & M' & e' & -> & He' & H2)];
    try congruence; cbn [Js.compare Js.signed_mantissa Js.exponent]; f_equal.
  - assert (0 < 2 ^ (e' - Z.min 0 e')) by (apply Z.pow_pos_nonneg; lia).
    transitivity Lt; [apply Z.compare_lt_iff; nia |].
    symmetry. apply Z.compare_lt_iff. lia.
  - assert (0 < 2 ^ (e - Z.min e 0)) by (apply Z.pow_pos_nonneg; lia).
    transitivity Gt; [apply Z.compare_gt_iff; nia |].
    symmetry. apply Z.compare_gt_iff. lia.
  - destruct (Z.lt_ge_cases n m) as [L | G].
    + transitivity Lt; [| symmetry; now apply Z.compare_lt_iff].
      apply Z.compare_lt_iff. now apply (compare_amounts_lt M e n M' e' m).
    + assert (L : m < n) by lia.
      transitivity Gt; [| symmetry; now apply Z.compare_gt_iff].
      apply Z.compare_gt_iff. rewrite (Z.min_comm e e').
      now apply (compare_amounts_lt M' e' m M e n).
Qed.

Lemma effect_bids_canonical st r st' :
  bids_canonical st -> effect st r st' -> bids_canonical st'.
Proof.
  intros I E. destruct E as [| a a' La C | a La F _ _]; [exact I | |].
  - intros j x s y. rewrite lookup_insert.
    destruct (decide (target r = j)) as [<- |]; [| apply I].
    intros [= <-] Hy.
    destruct C as [s0 c _ _ | s0 _ | s0 bid sec V _ _ Hb _].
    + apply (I _ a s y La). now destruct s0, s.
    + apply (I _ a s y La). now destruct s0, s.
    + destruct (validated_amount bid V) as (n & Hn & En).
      rewrite En in Hy. fold (amount n) in Hy.
      destruct s0, s; cbn in Hy;
        first [ exact (I _ a A y La Hy) | exact (I _ a B y La Hy)
              | exists n; split; [exact Hn | congruence] ].
  - destruct F as (_ & _ & Ba & Bb & _).
    intros j x s y. rewrite lookup_insert.
    destruct (decide (target r = j)) as [<- |]; [| apply I].
    intros [= <-]. destruct s; cbn; congruence.
Qed.

Lemma reachable_bids_canonical st : reachable st -> bids_canonical st.
Proof.
  intros [rs ->]. induction rs as [| r rs IH] using rev_ind.
  - intros j a s y H. change (run ∅ []) with (∅ : store) in H.
    rewrite lookup_empty in H. discriminate.
  - rewrite run_snoc. eapply effect_bids_canonical; [exact IH |].
    apply step_effect.
Qed.

(** X17. The winner agrees with the bids as displayed: in every store the
    operations can reach, when GetResult discloses, the two bid strings
    are amounts of [n] and [m] hundredths printed with two decimals, the
    winner is A exactly when [n > m], B exactly when [m > n] and TIE
    exactly when the printed bids are equal, and the payment is the larger
    printed bid (none on a tie). Rounding in [parseFloat] never makes the
    winner differ from the order of the printed amounts. *)
Theorem winner_agrees_with_printed_bids (st : store) id r :
  reachable st -> get_result st id = Success (Revealed r) ->
  exists n m,
    0 <= n <= 10000000 /\ 0 <= m <= 10000000
    /\ bidA r = Js.fixed2 n /\ bidB r = Js.fixed2 m
    /\ winner r = (if m <? n then "A" else if n <? m then "B" else "TIE")
    /\ paymentAmount r
       = (if n =? m then None else Some (Js.fixed2 (Z.max n m))).
Proof.
  intros R. unfold get_result, getAuctionById.
  destruct (st !! id) as [a |] eqn:L; [| discriminate].
  destruct (bid_a a) as [x |] eqn:Ba; [| discriminate].
  destruct (bid_b a) as [y |] eqn:Bb; [| discriminate].
  destruct (reachable_bids_canonical st R id a A x L Ba) as (n & Hn & ->).
  destruct (reachable_bids_canonical st R id a B y L Bb) as (m & Hm & ->).
  unfold Js.gt, Js.lt.
  rewrite (compare_amounts m n Hm Hn), (compare_amounts n m Hn Hm).
  rewrite !amount_prints by assumption.
  intros E. exists n, m. repeat (split; [assumption |]).
  destruct (Z.compare_spec m n) as [Q | Q | Q].
  - subst m. rewrite Z.compare_refl in E. cbn in E. injection E as <-.
    rewrite Z.ltb_irrefl, Z.eqb_refl. cbn [bidA bidB winner paymentAmount].
    rewrite ?amount_prints by assumption. repeat split.
  - replace (n ?= m) with Gt in E by (symmetry; now apply Z.compare_gt_iff).
    cbn in E. injection E as <-.
    replace (m <? n) with true by (symmetry; now apply Z.ltb_lt).
    replace (n =? m) with false by (symmetry; apply Z.eqb_neq; lia).
    rewrite Z.max_l by lia. cbn [bidA bidB winner paymentAmount].
    rewrite ?amount_prints by assumption. repeat split.
  - replace (n ?= m) with Lt in E by (symmetry; now apply Z.compare_lt_iff).
    cbn in E. injection E as <-.
    replace (m <? n) with false by (symmetry; apply Z.ltb_ge; lia).
    replace (n <? m) with true by (symmetry; now apply Z.ltb_lt).
    replace (n =? m) with false by (symmetry; apply Z.eqb_neq; lia).
    rewrite Z.max_r by lia. cbn [bidA bidB winner paymentAmount].
    rewrite ?amount_prints by assumption. repeat split.
Qed.

Lemma winner_agrees_with_printed_bids_witness :
  exists n m,
    0 <= n <= 10000000 /\ 0 <= m <= 10000000
    /\ "150.00" = Js.fixed2 n /\ "200.00" = Js.fixed2 m
    /\ "B" = (if m <? n then "A" else if n <? m then "B" else "TIE")
    /\ Some "200.00"
       = (if n =? m then None else Some (Js.fixed2 (Z.max n m))).
Proof.
  apply (winner_agrees_with_printed_bids st_revealed id
           (Result "Sofa" None None "150.00" "200.00" "B" (Some "200.00"))
           (reachable_run _)).
  vm_compute. reflexivity.
Defined.

Local Abbreviation digits ds := (string_of_list_ascii (map Js.digit_char ds)).

Lemma horner_nonneg ds : Forall Js.is_digit ds -> 0 <= Js.horner ds.
Proof.
  induction ds as [| d ds IH] using rev_ind; intros H; [reflexivity |].
  apply Forall_app in H as [H1 H2]. rewrite horner_snoc.
  apply Forall_inv in H2. unfold Js.is_digit in H2.
  specialize (IH H1). lia.
Qed.

Lemma digit_not_dot d : Js.is_digit d -> Ascii.eqb (Js.digit_char d) "." = false.
Proof.
  intros Hd. pose proof (digit_of_char d Hd) as H. apply digit_of_range in H.
  apply ascii_neq_code. change (Js.code ".") with 46. lia.
Qed.

Lemma split_digits ds :
  Forall Js.is_digit ds -> Js.split "." (digits ds) = [digits ds].
Proof.
  induction 1 as [| d ds Hd _ IH]; [reflexivity |].
  cbn [map string_of_list_ascii Js.split].
  rewrite (digit_not_dot d Hd), IH. reflexivity.
Qed.

Lemma split_decimal ip fp :
  Forall Js.is_digit ip -> Forall Js.is_digit fp ->
  Js.split "." (digits ip +:+ "." +:+ digits fp) = [digits ip; digits fp].
Proof.
  intros Hip Hfp. induction Hip as [| d ip Hd _ IH].
  - rewrite append_nil.
    change ("." +:+ digits fp) with (String "." (digits fp)).
    cbn [Js.split]. change (Ascii.eqb "." ".") with true. cbv iota.
    now rewrite split_digits.
  - cbn [map string_of_list_ascii]. rewrite append_cons.
    cbn [Js.split]. rewrite (digit_not_dot d Hd), IH. reflexivity.
Qed.

Lemma js_length_digits ds :
  Forall Js.is_digit ds -> Js.js_length (digits ds) = Z.of_nat (List.length ds).
Proof.
  induction 1 as [| d ds Hd _ IH]; [reflexivity |].
  cbn [map string_of_list_ascii Js.js_length List.length].
  rewrite IH, Nat2Z.inj_succ.
  pose proof (digit_of_char d Hd) as H. apply digit_of_range in H.
  unfold Js.utf16_units.
  replace (Js.code (Js.digit_char d) <? 128) with true
    by (symmetry; apply Z.ltb_lt; lia).
  lia.
Qed.

Lemma digits_append_nil ds : digits ds +:+ "" = digits ds.
Proof.
  induction (map Js.digit_char ds) as [| c l IH]; [reflexivity |].
  cbn [string_of_list_ascii]. rewrite append_cons. f_equal. exact IH.
Qed.

(** Reading a plain integer literal. *)
Lemma parse_float_integer ip :
  ip <> [] -> Forall Js.is_digit ip ->
  Js.parse_float (digits ip) = Js.of_decimal false (Js.horner ip) 0.
Proof.
  intros Hne Hip. destruct ip as [| d ip]; [congruence |].
  pose proof (digit_of_char d (Forall_inv Hip)) as Hd.
  unfold Js.parse_float.
  replace (digits (d :: ip))
    with (String (Js.digit_char d) (digits ip)) by reflexivity.
  rewrite (trim_start_digit _ _ _ Hd), (strip_sign_digit _ _ _ Hd).
  rewrite (not_infinity_digit _ _ _ Hd).
  replace (String (Js.digit_char d) (digits ip))
    with (digits (d :: ip) +:+ "")
    by (rewrite digits_append_nil; reflexivity).
  rewrite (span_digits_str (d :: ip) _ Hip) by reflexivity.
  cbv beta iota. rewrite app_nil_r. reflexivity.
Qed.

(** The number read from [p / q] for a denominator up to 100 and a
    numerator up to 2^31: finite, within half a unit in the last place. *)
Lemma round_ratio_small p q :
  1 <= q <= 100 -> 1 <= p <= 2 ^ 31 ->
  exists m e, Js.round_ratio false p q = S754_finite false m e
    /\ -60 <= e <= -20
    /\ 2 * Z.abs (q * Zpos m - p * 2 ^ (- e)) <= q.
Proof.
  intros Hq Hp. unfold Js.round_ratio.
  assert (HLq : 0 <= Z.log2 q <= 6).
  { split; [apply Z.log2_nonneg |].
    change 6 with (Z.log2 100). apply Z.log2_le_mono. lia. }
  assert (HLp : 0 <= Z.log2 p <= 31).
  { split; [apply Z.log2_nonneg |].
    change 31 with (Z.log2 (2 ^ 31)). apply Z.log2_le_mono. lia. }
  rewrite Z.max_l by lia.
  set (e1 := Z.log2 p - Z.log2 q - 52).
  replace (-1074 <? e1) with true by (symmetry; apply Z.ltb_lt; lia).
  cbv beta iota zeta. rewrite andb_true_l.
  set (e := if Js.scaled_num p e1 / Js.scaled_den q e1 <? 2 ^ 52
            then e1 - 1 else e1).
  assert (He : -59 <= e <= -21)
    by (subst e; destruct (_ <? _); lia).
  clearbody e. clear e1.
  unfold Js.scaled_num, Js.scaled_den.
  replace (e <? 0) with true by (symmetry; apply Z.ltb_lt; lia).
  assert (HP : 2 ^ 21 <= 2 ^ (- e)) by (apply Z.pow_le_mono_r; lia).
  change (2 ^ 21) with 2097152 in HP.
  destruct (nearest_even_close (p * 2 ^ (- e)) q) as [Hm0 Hc]; [lia | nia |].
  set (m0 := Js.nearest_even (p * 2 ^ (- e)) q) in *.
  destruct (m0 =? 2 ^ 53) eqn:Hcarry.
  - apply Z.eqb_eq in Hcarry.
    replace (2 ^ 52) with (Zpos 4503599627370496) by reflexivity.
    replace (971 <? e + 1) with false by (symmetry; apply Z.ltb_ge; lia).
    exists 4503599627370496%positive, (e + 1). split; [reflexivity |].
    split; [lia |].
    replace (- e) with (1 + (- (e + 1))) in Hc by lia.
    rewrite pow2_split in Hc by lia.
    change (2 ^ 1) with 2 in Hc. rewrite Hcarry in Hc.
    change (2 ^ 53) with 9007199254740992 in Hc.
    set (P := 2 ^ (- (e + 1))) in *. lia.
  - destruct m0 as [| mp | mp] eqn:Em0; [nia | | lia].
    replace (971 <? e) with false by (symmetry; apply Z.ltb_ge; lia).
    exists mp, e. split; [reflexivity |]. split; [lia |].
    set (P := 2 ^ (- e)) in *. lia.
Qed.

(** Such a number is above 100000 exactly when the ratio is. *)
Lemma gt_100000_small m e p q :
  1 <= q <= 100 -> 1 <= p -> -60 <= e <= -20 ->
  2 * Z.abs (q * Zpos m - p * 2 ^ (- e)) <= q ->
  Js.gt (S754_finite false m e) (Js.of_int 100000) = (100000 * q <? p).
Proof.
  intros Hq Hp He Hc. rewrite of_int_100000.
  unfold Js.gt, Js.lt, Js.compare. cbn [Js.signed_mantissa Js.exponent].
  assert (HP : 2 ^ 20 <= 2 ^ (- e)) by (apply Z.pow_le_mono_r; lia).
  change (2 ^ 20) with 1048576 in HP.
  set (P := 2 ^ (- e)) in *. set (M := Z.pos m) in *.
  assert (R : (100000 * q < p -> 100000 * P < M)
              /\ (p <= 100000 * q -> M <= 100000 * P)).
  { split; intros L.
    - assert ((100000 * q + 1) * P <= p * P) by nia.
      destruct (Z.lt_ge_cases (100000 * P) M) as [G | G]; [exact G |].
      assert (q * M <= q * (100000 * P)) by nia. lia.
    - assert (p * P <= 100000 * q * P) by nia.
      destruct (Z.le_gt_cases M (100000 * P)) as [G | G]; [exact G |].
      assert (q * (100000 * P + 1) <= q * M) by nia. lia. }
  destruct R as [R1 R2].
  change 6871947673600000 with (100000 * 2 ^ 36).
  destruct (Z.le_gt_cases e (-36)) as [Le | Gt].
  - rewrite Z.min_r by lia. rewrite Z.sub_diag. change (2 ^ 0) with 1.
    assert (EP : 2 ^ 36 * 2 ^ (-36 - e) = P)
      by (subst P; rewrite <- pow2_split by lia; f_equal; lia).
    rewrite <- Z.mul_assoc, EP, Z.mul_1_r.
    destruct (Z.ltb_spec (100000 * q) p) as [L | L].
    + replace (100000 * P ?= M) with Lt
        by (symmetry; apply Z.compare_lt_iff; auto).
      reflexivity.
    + specialize (R2 L).
      destruct (Z.compare_spec (100000 * P) M); try reflexivity; lia.
  - rewrite Z.min_l by lia. rewrite Z.sub_diag. change (2 ^ 0) with 1.
    rewrite Z.mul_1_r.
    assert (ES : 2 ^ (e - -36) * P = 2 ^ 36)
      by (subst P; rewrite <- pow2_split by lia; f_equal; lia).
    assert (HS : 0 < 2 ^ (e - -36)) by (apply Z.pow_pos_nonneg; lia).
    set (S := 2 ^ (e - -36)) in *. rewrite <- ES.
    destruct (Z.ltb_spec (100000 * q) p) as [L | L].
    + specialize (R1 L).
      replace (100000 * (S * P) ?= M * S) with Lt
        by (symmetry; apply Z.compare_lt_iff; nia).
      reflexivity.
    + specialize (R2 L).
      destruct (Z.compare_spec (100000 * (S * P)) (M * S));
        try reflexivity; nia.
Qed.

(** A ratio of at least 2^24 is read as a number above 100000. *)
Lemma round_ratio_large p q :
  1 <= q <= 100 -> 2 ^ 24 * q <= p ->
  let x := Js.round_ratio false p q in
  Js.is_nan x = false /\ Js.le x Js.zero = false
  /\ Js.gt x (Js.of_int 100000) = true.
Proof.
  intros Hq Hp.
  assert (K : forall mp e, -36 <= e ->
            100000 * 2 ^ 36 < Z.pos mp * 2 ^ (e + 36) ->
            let x := if 971 <? e then S754_infinity false
                     else S754_finite false mp e in
            Js.is_nan x = false /\ Js.le x Js.zero = false
            /\ Js.gt x (Js.of_int 100000) = true).
  { intros mp e He Hv. destruct (971 <? e); [repeat split |].
    cbv zeta. split; [reflexivity |]. split.
    - unfold Js.le, Js.compare, Js.zero.
      cbn [Js.signed_mantissa Js.exponent].
      rewrite Z.mul_0_l.
      assert (0 < 2 ^ (e - Z.min e 0)) by (apply Z.pow_pos_nonneg; lia).
      destruct (Z.compare_spec (Z.pos mp * 2 ^ (e - Z.min e 0)) 0);
        try reflexivity; nia.
    - rewrite of_int_100000. unfold Js.gt, Js.lt, Js.compare.
      cbn [Js.signed_mantissa Js.exponent].
      rewrite Z.min_l by lia. rewrite Z.sub_diag. change (2 ^ 0) with 1.
      rewrite Z.mul_1_r.
      replace (e - -36) with (e + 36) by lia.
      change 6871947673600000 with (100000 * 2 ^ 36).
      replace (100000 * 2 ^ 36 ?= Z.pos mp * 2 ^ (e + 36)) with Lt
        by (symmetry; now apply Z.compare_lt_iff).
      reflexivity. }
  unfold Js.round_ratio.
  assert (HLq : 0 <= Z.log2 q) by apply Z.log2_nonneg.
  assert (HLp : 24 + Z.log2 q <= Z.log2 p).
  { rewrite <- (Z.log2_mul_pow2 q 24) by lia.
    apply Z.log2_le_mono. lia. }
  rewrite Z.max_l by lia.
  set (e1 := Z.log2 p - Z.log2 q - 52).
  replace (-1074 <? e1) with true by (symmetry; apply Z.ltb_lt; lia).
  cbv beta iota zeta. rewrite andb_true_l.
  set (e := if Js.scaled_num p e1 / Js.scaled_den q e1 <? 2 ^ 52
            then e1 - 1 else e1).
  assert (He : -29 <= e <= Z.log2 p - Z.log2 q - 52)
    by (subst e; destruct (_ <? _); lia).
  clearbody e. clear e1.
  set (m0 := Js.nearest_even (Js.scaled_num p e) (Js.scaled_den q e)).
  assert (Hv : 0 < m0 /\ 100000 * 2 ^ 36 < m0 * 2 ^ (e + 36)).
  { subst m0. unfold Js.scaled_num, Js.scaled_den.
    change (2 ^ 24) with 16777216 in Hp.
    change (2 ^ 36) with 68719476736.
    destruct (Z.ltb_spec e 0) as [Neg | Pos].
    - assert (HP : 2 ^ 1 <= 2 ^ (- e)) by (apply Z.pow_le_mono_r; lia).
      change (2 ^ 1) with 2 in HP.
      assert (ES : 2 ^ (e + 36) * 2 ^ (- e) = 68719476736)
        by (rewrite <- pow2_split by lia;
            replace (e + 36 + - e) with 36 by lia; reflexivity).
      assert (HS : 0 < 2 ^ (e + 36)) by (apply Z.pow_pos_nonneg; lia).
      destruct (nearest_even_close (p * 2 ^ (- e)) q) as [Hm0 Hc];
        [lia | nia |].
      set (m0 := Js.nearest_even (p * 2 ^ (- e)) q) in *.
      set (P := 2 ^ (- e)) in *. set (S := 2 ^ (e + 36)) in *.
      assert (B1 : 16777216 * q * P <= p * P) by nia.
      assert (B2 : 2 * p * P - q <= 2 * (q * m0)) by lia.
      assert (B3 : (33554432 * P - 1) * q <= 2 * m0 * q) by lia.
      assert (B4 : 33554432 * P - 1 <= 2 * m0) by nia.
      split; [lia |]. nia.
    - assert (HE : 0 < 2 ^ e) by (apply Z.pow_pos_nonneg; lia).
      assert (ES : 2 ^ (e + 36) = 2 ^ e * 68719476736)
        by (rewrite pow2_split by lia; reflexivity).
      assert (HW : q * 2 ^ e * 2 ^ 51 <= p).
      { assert (Hp0 : 0 < p) by lia.
        pose proof (Z.log2_spec p Hp0) as [Lp _].
        pose proof (Z.log2_spec q ltac:(lia)) as [_ Uq].
        assert (Hle : 2 ^ (e + (Z.log2 q + 52)) <= 2 ^ Z.log2 p)
          by (apply Z.pow_le_mono_r; lia).
        rewrite pow2_split in Hle by lia.
        rewrite (pow2_split (Z.log2 q) 52) in Hle by lia.
        rewrite Z.pow_succ_r in Uq by lia.
        change (2 ^ 52) with (2 * 2 ^ 51) in Hle.
        set (E := 2 ^ e) in *. set (Q := 2 ^ Z.log2 q) in *.
        set (T := 2 ^ 51) in *.
        assert (0 < T) by (subst T; reflexivity).
        assert (q * E * T <= 2 * Q * E * T) by nia. nia. }
      change (2 ^ 51) with 2251799813685248 in HW.
      rewrite ES.
      destruct (nearest_even_close p (q * 2 ^ e)) as [Hm0 Hc]; [nia | lia |].
      set (m0 := Js.nearest_even p (q * 2 ^ e)) in *.
      set (E := 2 ^ e) in *.
      assert (B1 : 2 * p - q * E <= 2 * (m0 * (q * E))) by lia.
      assert (B2 : 0 < q * E) by nia.
      assert (B3 : 16777215 * q <= m0 * E * q) by nia.
      assert (B4 : 16777215 <= m0 * E) by nia.
      split; [nia | lia]. }
  clearbody m0. destruct Hv as [Hm0 Hv].
  destruct (m0 =? 2 ^ 53) eqn:Hcarry.
  - apply Z.eqb_eq in Hcarry.
    replace (2 ^ 52) with (Zpos 4503599627370496) by reflexivity.
    apply K; [lia |].
    replace (e + 1 + 36) with (1 + (e + 36)) by lia.
    rewrite pow2_split by lia. rewrite Hcarry in Hv.
    change (2 ^ 53) with 9007199254740992 in Hv. change (2 ^ 1) with 2.
    lia.
  - destruct m0 as [| mp | mp]; [lia | | lia].
    apply K; [lia | exact Hv].
Qed.

(** The range test of [validateBid] on a decimal with at most two
    fraction digits decides [0 < D <= 100000 * 10^k] exactly. *)
Lemma range_check D k :
  0 <= D -> 0 <= k <= 2 ->
  let x := Js.of_decimal false D (0 - k) in
  Js.is_nan x || Js.le x Js.zero || Js.gt x (Js.of_int 100000)
  = negb ((0 <? D) && (D <=? 100000 * 10 ^ k)).
Proof.
  intros HD Hk. cbv zeta. unfold Js.of_decimal.
  destruct (Z.eqb_spec D 0) as [-> | Nz]; [reflexivity |].
  replace (0 <? D) with true by (symmetry; apply Z.ltb_lt; lia).
  rewrite andb_true_l.
  assert (Q : exists q, 1 <= q <= 100 /\ 10 ^ k = q
              /\ (if 0 - k <? 0 then Js.round_ratio false D (10 ^ (- (0 - k)))
                  else Js.round_ratio false (D * 10 ^ (0 - k)) 1)
                 = Js.round_ratio false D q).
  { assert (k = 0 \/ k = 1 \/ k = 2) as [-> | [-> | ->]] by lia.
    - exists 1. repeat split; try lia. cbn. now rewrite Z.mul_1_r.
    - exists 10. repeat split; lia.
    - exists 100. repeat split; lia. }
  destruct Q as (q & Hq & -> & ->).
  destruct (Z.le_gt_cases D (2 ^ 31)) as [Small | Large].
  - destruct (round_ratio_small D q Hq ltac:(lia)) as (m & e & -> & He & Hc).
    rewrite (gt_100000_small m e D q Hq ltac:(lia) He Hc).
    cbn [Js.is_nan orb].
    replace (Js.le (S754_finite false m e) Js.zero) with false.
    + cbn [orb]. apply Z.ltb_antisym.
    + symmetry. unfold Js.le, Js.compare, Js.zero.
      cbn [Js.signed_mantissa Js.exponent].
      rewrite Z.mul_0_l.
      assert (0 < 2 ^ (e - Z.min e 0)) by (apply Z.pow_pos_nonneg; lia).
      destruct (Z.compare_spec (Z.pos m * 2 ^ (e - Z.min e 0)) 0);
        try reflexivity; nia.
  - change (2 ^ 31) with 2147483648 in Large.
    destruct (round_ratio_large D q Hq) as (-> & -> & ->).
    { change (2 ^ 24) with 16777216. lia. }
    cbn [orb]. replace (D <=? 100000 * q) with false; [reflexivity |].
    symmetry. apply Z.leb_gt. lia.
Qed.

(** X18. What [validateBid] accepts among plain decimal texts: an integer
    literal is accepted exactly when its value is in 1..100000, and a
    literal with a point exactly when it has at most two digits after the
    point and its value is positive and at most 100000. Leading zeros and
    an empty fraction are allowed; binary rounding in [parseFloat] never
    moves a decimal across either bound. *)
Theorem validateBid_plain_decimal ip fp :
  ip <> [] -> Forall Js.is_digit ip -> Forall Js.is_digit fp ->
  validateBid (JString (digits ip))
  = (0 <? Js.horner ip) && (Js.horner ip <=? 100000)
  /\ validateBid (JString (digits ip +:+ "." +:+ digits fp))
     = (0 <? Js.horner (ip ++ fp)%list)
       && (Js.horner (ip ++ fp)%list
           <=? 100000 * 10 ^ Z.of_nat (List.length fp))
       && (Z.of_nat (List.length fp) <=? 2).
Proof.
  intros Hne Hip Hfp. unfold validateBid, parseFloat, to_string. split.
  - rewrite (parse_float_integer ip Hne Hip), (split_digits ip Hip).
    pose proof (range_check (Js.horner ip) 0 (horner_nonneg ip Hip)
                  ltac:(lia)) as R.
    cbv zeta in R. change (0 - 0) with 0 in R. rewrite R.
    change (10 ^ 0) with 1. rewrite Z.mul_1_r.
    now destruct (_ && _).
  - rewrite (parse_float_decimal ip fp Hne Hip Hfp).
    rewrite (split_decimal ip fp Hip Hfp), (js_length_digits fp Hfp).
    set (k := Z.of_nat (List.length fp)).
    destruct (Z.leb_spec k 2) as [Le | Gt].
    + pose proof (range_check (Js.horner (ip ++ fp)%list) k
                    (horner_nonneg _ (proj2 (Forall_app _ _ _)
                                        (conj Hip Hfp)))
                    ltac:(lia)) as R.
      cbv zeta in R. rewrite R.
      replace (2 <? k) with false by (symmetry; apply Z.ltb_ge; lia).
      rewrite andb_true_r. now destruct (_ && _).
    + replace (2 <? k) with true by (symmetry; apply Z.ltb_lt; lia).
      rewrite andb_false_r. now destruct (_ || _).
Qed.

Lemma validateBid_plain_decimal_witness :
  validateBid (JString "100000") = true
  /\ validateBid (JString "100000.01") = false.
Proof.
  destruct (validateBid_plain_decimal [1; 0; 0; 0; 0; 0] [0; 1])
    as [H1 H2].
  - discriminate.
  - repeat constructor; unfold Js.is_digit; lia.
  - repeat constructor; unfold Js.is_digit; lia.
  - split; [exact H1 | exact H2].
Defined.

End Coverage.
